(** * Script.js: trade charges and profit/loss, over IEEE-754 binary64

    JavaScript numbers are IEEE-754 binary64 values.  They are modelled by
    the Standard Library's [spec_float] at precision 53 and maximal exponent
    1024, with the library's bit-level operations ([SFmul], [SFadd], ...),
    which round to nearest, ties to even, as JavaScript does.  A JavaScript
    string is held as the bytes of its UTF-8 encoding.

    Part I embeds the script: the constants, [calculateTradeCharges],
    [formatInteger], [updateResultRow] and the handler
    [calculateProfitLoss], which reads and writes the page.  [formatNumber]
    is never called by the script and is left out.

    Part II proves the properties: the fee schedule branch by branch, the
    signs of the charges, the exits of the handler, and, from a small theory
    of rounding in the normal range, how far the computed charges and the
    break-even price are from their exact values.

    Part III goes further into the code: what [Math.round] and
    [formatInteger] make of the charges, the rows of the table, the marker
    classes of the net P&L, what a second run and a refused run leave on the
    page, the inputs that [calculateTradeCharges] does not check, the total
    charges as a rate of the trade value, and the break-even price. *)

From Stdlib Require Import ZArith Bool List String Ascii Lia.
From Stdlib Require Import QArith Qabs Qpower Qround Lqa.
From Stdlib Require Import Floats.
Import ListNotations.

#[local] Set Warnings "-inexact-float".
Local Open Scope Z_scope.

(** * Part I: the model *)

(** ** JavaScript numbers and strings *)

Module JS.

Definition number := spec_float.

Definition prec : Z := 53.
Definition emax : Z := 1024.

Definition mul : number -> number -> number := SFmul prec emax.
Definition add : number -> number -> number := SFadd prec emax.
Definition sub : number -> number -> number := SFsub prec emax.
Definition div : number -> number -> number := SFdiv prec emax.

(** [x <= y], [x < y], [x > y] and [x !== y] on numbers; the comparisons
    are false when an operand is NaN, and the two zeros are equal. *)
Definition le (x y : number) : bool := SFleb x y.
Definition lt (x y : number) : bool := SFltb x y.
Definition gt (x y : number) : bool := SFltb y x.
Definition strict_eq (x y : number) : bool := SFeqb x y.
Definition strict_ne (x y : number) : bool := negb (SFeqb x y).

Definition isNaN (x : number) : bool :=
  match x with S754_nan => true | _ => false end.

Definition isFinite (x : number) : bool :=
  match x with S754_nan | S754_infinity _ => false | _ => true end.

(** A numeric literal of the source: the double nearest to the decimal. *)
Definition lit (f : float) : number := Prim2SF f.

(** [Math.round]: the integer nearest to [x], halves going up; NaN, the
    infinities and the zeros are returned as they are, and a negative [x]
    that rounds to zero gives the negative zero. *)
Definition Math_round (x : number) : number :=
  match x with
  | S754_finite s m e =>
      if 0 <=? e then x
      else
        let v := if s then Z.neg m else Z.pos m in
        let n := Z.shiftr (2 * v + Z.shiftl 1 (- e)) (- e + 1) in
        binary_normalize prec emax n 0 s
  | _ => x
  end.

(** [String.prototype.toUpperCase].  A string is held as the bytes of its
    UTF-8 encoding, so that [===] on strings is the equality of the bytes.

    The letters a-z are upper-cased byte by byte.  Outside ASCII, the
    characters whose upper case is ASCII text are upper-cased as JavaScript
    does: U+00DF to SS, U+0131 (dotless i) to I, U+017F (long s) to S, and
    the ligatures U+FB00 to U+FB06 to FF, FI, FL, FFI, FFL, ST and ST.  Every
    other character outside ASCII is kept as it is: its upper case, like the
    character itself, has a character outside ASCII, so that the result is
    no ASCII string, here as in JavaScript.  The result therefore equals a
    given ASCII string exactly when the result of JavaScript's toUpperCase
    does. *)
Definition upper_ascii (c : ascii) : ascii :=
  let n := nat_of_ascii c in
  if (Nat.leb 97 n && Nat.leb n 122)%bool then ascii_of_nat (n - 32) else c.

(** The characters of two bytes: U+00DF, U+0131 and U+017F. *)
Definition upper_two (c d : ascii) : option string :=
  if (c =? "195")%char && (d =? "159")%char then Some "SS"%string
  else if (c =? "196")%char && (d =? "177")%char then Some "I"%string
  else if (c =? "197")%char && (d =? "191")%char then Some "S"%string
  else None.

(** The characters of three bytes: U+FB00 to U+FB06. *)
Definition upper_three (c d e : ascii) : option string :=
  if (c =? "239")%char && (d =? "172")%char then
    if (e =? "128")%char then Some "FF"%string
    else if (e =? "129")%char then Some "FI"%string
    else if (e =? "130")%char then Some "FL"%string
    else if (e =? "131")%char then Some "FFI"%string
    else if (e =? "132")%char then Some "FFL"%string
    else if (e =? "133")%char then Some "ST"%string
    else if (e =? "134")%char then Some "ST"%string
    else None
  else None.

Fixpoint toUpperCase (s : string) : string :=
  match s with
  | EmptyString => EmptyString
  | String c s1 =>
      let plain := String (upper_ascii c) (toUpperCase s1) in
      match s1 with
      | EmptyString => plain
      | String d s2 =>
          match upper_two c d with
          | Some t => (t ++ toUpperCase s2)%string
          | None =>
              match s2 with
              | EmptyString => plain
              | String e s3 =>
                  match upper_three c d e with
                  | Some t => (t ++ toUpperCase s3)%string
                  | None => plain
                  end
              end
          end
      end
  end.

End JS.

Import JS.

Arguments lit f%_float.

Declare Scope js_scope.
Delimit Scope js_scope with js.
Bind Scope js_scope with number.
Infix "*" := mul : js_scope.
Infix "+" := add : js_scope.
Infix "-" := sub : js_scope.
Infix "/" := div : js_scope.
Infix "<=" := le : js_scope.
Infix "<" := lt : js_scope.
Infix ">" := gt : js_scope.
Infix "===" := String.eqb (at level 70, no associativity) : js_scope.

Local Open Scope string_scope.
Local Open Scope js_scope.

(** ** Constants of the fee schedule (Script.js, lines 1-5) *)

Definition TAX_GST : number := lit 0.18.
Definition RATE_SEBI_EXCH : number := (lit 0.0001 + lit 0.00307) / lit 100.
Definition RATE_BROKERAGE_DELIVERY : number := lit 0.000704847026178763.
Definition MIN_BROKERAGE : number := lit 20.

(** ** calculateTradeCharges (Script.js, lines 16-81) *)

(** The local constants and variables of one call. *)
Record TradeLocals := {
  l_tradeValue : number;
  l_isDelivery : bool;
  l_brokerageBase : number;
  l_brokerageGST : number;
  l_totalBrokerage : number;
  l_stt : number;
  l_sebiTurnover : number;
  l_exchangeCharges : number;
  l_sebiExchangeCharges : number;
  l_stampDuty : number;
  l_totalCharges : number
}.

Definition tradeLocals (qty price : number) (action segment : string)
  : TradeLocals :=
  let tradeValue := qty * price in
  let isDelivery := toUpperCase segment === "ROLLING T1" in
  let actionUpper := toUpperCase action in
  let segmentUpper := toUpperCase segment in
  let brokerageBase :=
    if isDelivery then tradeValue * RATE_BROKERAGE_DELIVERY
    else tradeValue * lit 0.00007 in
  let brokerageGST := brokerageBase * TAX_GST in
  let totalBrokerage := brokerageBase + brokerageGST in
  let stt :=
    if ((segmentUpper === "F&O") && (actionUpper === "SELL"))%bool
    then tradeValue * lit 0.0002
    else if isDelivery then tradeValue * lit 0.001
    else if actionUpper === "SELL" then tradeValue * lit 0.00025
    else lit 0 in
  let sebiTurnover := tradeValue * lit 0.000001 in
  let exchangeCharges :=
    if segmentUpper === "F&O" then tradeValue * lit 0.0000183
    else tradeValue * lit 0.0000307 in
  let sebiExchangeCharges := sebiTurnover + exchangeCharges in
  let stampDuty :=
    if ((segmentUpper === "F&O") && (actionUpper === "BUY"))%bool
    then tradeValue * lit 0.00002
    else if isDelivery
    then (if actionUpper === "BUY" then tradeValue * lit 0.00015 else lit 0)
    else (if actionUpper === "BUY" then tradeValue * lit 0.00003 else lit 0) in
  let totalCharges := stt + sebiExchangeCharges + stampDuty + totalBrokerage in
  {| l_tradeValue := tradeValue;
     l_isDelivery := isDelivery;
     l_brokerageBase := brokerageBase;
     l_brokerageGST := brokerageGST;
     l_totalBrokerage := totalBrokerage;
     l_stt := stt;
     l_sebiTurnover := sebiTurnover;
     l_exchangeCharges := exchangeCharges;
     l_sebiExchangeCharges := sebiExchangeCharges;
     l_stampDuty := stampDuty;
     l_totalCharges := totalCharges |}.

(** The object the function returns. *)
Record TradeCharges := {
  tradeValue : number;
  stt : number;
  sebiExchangeCharges : number;
  stampDuty : number;
  totalBrokerage : number;
  totalCharges : number;
  qty : number;
  _originalTradeValue : number;
  _originalTotalCharges : number
}.

Definition calculateTradeCharges (qty price : number) (action segment : string)
  : TradeCharges :=
  let l := tradeLocals qty price action segment in
  {| tradeValue := Math_round (l_tradeValue l);
     stt := Math_round (l_stt l);
     sebiExchangeCharges := Math_round (l_sebiExchangeCharges l);
     stampDuty := Math_round (l_stampDuty l);
     totalBrokerage := Math_round (l_totalBrokerage l);
     totalCharges := Math_round (l_totalCharges l);
     qty := qty;
     _originalTradeValue := l_tradeValue l;
     _originalTotalCharges := l_totalCharges l |}.

(** ** The page (the DOM elements the handler reads and writes)

    A numeric input is held as the number that [Number(element.value)]
    yields; how the text of a field is parsed is outside this file.  An
    assignment to [value] stores what is assigned: reading the field back
    gives the same number or string. *)

Record Form := {
  buyQty : number;
  buyPrice : number;
  buySegment : string;
  sellQty : number;
  sellPrice : number;
  sellSegment : string
}.

(** Text written into the page.  The digits that [toLocaleString] and
    [toFixed] print are kept symbolic. *)
Inductive text :=
| Str (s : string)
| Localized (n : number)        (* n.toLocaleString('en-IN') *)
| Fixed (x : number) (d : Z)    (* x.toFixed(d) *)
| Plus (t : text).              (* "+" + t *)

(** Each [*_hidden] is the presence of the class 'hidden' on the element. *)
Record Panels := {
  errorMsg_textContent : text;
  errorMsg_hidden : bool;
  resultsHeader_hidden : bool;
  resultsTableContainer_hidden : bool;
  finalPL_hidden : bool;
  loadedRateSection_hidden : bool
}.

Record Figures := {
  buy_row : list text;
  sell_row : list text;
  gross_pl : text;
  total_charges_pl : text;
  net_pl : text;
  net_pl_classList : list string;
  loaded_rate : text
}.

Record Page := {
  form : Form;
  panels : Panels;
  figures : Figures
}.

(** ** formatInteger, updateResultRow (Script.js, lines 94-113) *)

Definition formatInteger (num : number) : text :=
  if (isNaN num || negb (isFinite num))%bool then Str "N/A"
  else Localized (Math_round num).

Definition updateResultRow (side : string) (results : TradeCharges)
  : list text :=
  [ Str side;
    formatInteger (tradeValue results);
    formatInteger (stt results);
    formatInteger (sebiExchangeCharges results);
    formatInteger (stampDuty results);
    formatInteger (totalBrokerage results);
    formatInteger (totalCharges results) ].

Definition classList_remove (cs : list string) (l : list string) : list string :=
  filter (fun c => negb (existsb (String.eqb c) cs)) l.

Definition classList_add (c : string) (l : list string) : list string :=
  if existsb (String.eqb c) l then l else l ++ [c].

(** ** calculateProfitLoss (Script.js, lines 115-198) *)

Definition msgInvalid : string :=
  "Please enter valid quantities and prices (> 0).".
Definition msgMismatch : string :=
  "The Buy Quantity and Sell Quantity must match for a single P&L calculation.".

(** Lines 116-121: the error message is hidden, then the sell quantity and
    the sell segment are overwritten with the buy side's. *)
Definition mirror (pg : Page) : Page :=
  let p := panels pg in
  let f := form pg in
  {| form := {| buyQty := buyQty f; buyPrice := buyPrice f;
                buySegment := buySegment f;
                sellQty := buyQty f; sellPrice := sellPrice f;
                sellSegment := buySegment f |};
     panels := {| errorMsg_textContent := errorMsg_textContent p;
                  errorMsg_hidden := true;
                  resultsHeader_hidden := resultsHeader_hidden p;
                  resultsTableContainer_hidden := resultsTableContainer_hidden p;
                  finalPL_hidden := finalPL_hidden p;
                  loadedRateSection_hidden := loadedRateSection_hidden p |};
     figures := figures pg |}.

(** Line 132: the validation test. *)
Definition invalid (f : Form) : bool :=
  ((buyQty f <= lit 0) || (buyPrice f <= lit 0) || (sellQty f <= lit 0)
   || (sellPrice f <= lit 0) || isNaN (buyQty f) || isNaN (buyPrice f))%bool.

(** Lines 148-165: the values computed for a pair of legs. *)
Record PnlLocals := {
  buyCharges : TradeCharges;
  sellChargesActual : TradeCharges;
  grossProfit : number;
  pl_totalCharges : number;
  netProfitLoss : number;
  totalBuyTradeValue : number;
  sellPriceRequiredToBreakEven : number
}.

Definition pnlLocals (f : Form) : PnlLocals :=
  let buyCharges := calculateTradeCharges (buyQty f) (buyPrice f) "BUY" (buySegment f) in
  let sellChargesActual :=
    calculateTradeCharges (sellQty f) (sellPrice f) "SELL" (sellSegment f) in
  let grossProfit := (sellQty f * sellPrice f) - (buyQty f * buyPrice f) in
  let totalCharges :=
    _originalTotalCharges buyCharges + _originalTotalCharges sellChargesActual in
  let netProfitLoss := grossProfit - totalCharges in
  let totalBuyTradeValue := _originalTradeValue buyCharges in
  let sellPriceRequiredToBreakEven :=
    (totalBuyTradeValue + totalCharges)
    / (if buyQty f > lit 0 then buyQty f else lit 1) in
  {| buyCharges := buyCharges;
     sellChargesActual := sellChargesActual;
     grossProfit := grossProfit;
     pl_totalCharges := totalCharges;
     netProfitLoss := netProfitLoss;
     totalBuyTradeValue := totalBuyTradeValue;
     sellPriceRequiredToBreakEven := sellPriceRequiredToBreakEven |}.

(** Lines 157-191: what is written into the table and the summary. *)
Definition showFigures (f : Form) (r : PnlLocals) (old : Figures) : Figures :=
  let cls := classList_remove ["profit"; "loss"; "zero"] (net_pl_classList old) in
  let net := formatInteger (netProfitLoss r) in
  {| buy_row := updateResultRow "Buy" (buyCharges r);
     sell_row := updateResultRow "Sell" (sellChargesActual r);
     gross_pl := formatInteger (grossProfit r);
     total_charges_pl := formatInteger (pl_totalCharges r);
     net_pl := if netProfitLoss r > lit 0 then Plus net else net;
     net_pl_classList :=
       if netProfitLoss r > lit 0 then classList_add "profit" cls
       else if netProfitLoss r < lit 0 then classList_add "loss" cls
       else classList_add "zero" cls;
     loaded_rate :=
       if (negb (isFinite (sellPriceRequiredToBreakEven r))
           || (buyQty f <= lit 0))%bool
       then Str "N/A"
       else Fixed (sellPriceRequiredToBreakEven r) 4 |}.

(** Which [return] of the handler is reached. *)
Inductive exit := ExitInvalid | ExitMismatch | ExitShown.

(** Lines 123-198: the handler once the sell side has been overwritten. *)
Definition validateAndShow (pg : Page) : exit * Page :=
  let f := form pg in
  let p := panels pg in
  if invalid f then
    (ExitInvalid,
     {| form := f;
        panels := {| errorMsg_textContent := Str msgInvalid;
                     errorMsg_hidden := false;
                     resultsHeader_hidden := true;
                     resultsTableContainer_hidden := resultsTableContainer_hidden p;
                     finalPL_hidden := true;
                     loadedRateSection_hidden := true |};
        figures := figures pg |})
  else if strict_ne (buyQty f) (sellQty f) then
    (ExitMismatch,
     {| form := f;
        panels := {| errorMsg_textContent := Str msgMismatch;
                     errorMsg_hidden := false;
                     resultsHeader_hidden := resultsHeader_hidden p;
                     resultsTableContainer_hidden := resultsTableContainer_hidden p;
                     finalPL_hidden := true;
                     loadedRateSection_hidden := true |};
        figures := figures pg |})
  else
    (ExitShown,
     {| form := f;
        panels := {| errorMsg_textContent := errorMsg_textContent p;
                     errorMsg_hidden := errorMsg_hidden p;
                     resultsHeader_hidden := false;
                     resultsTableContainer_hidden := false;
                     finalPL_hidden := false;
                     loadedRateSection_hidden := false |};
        figures := showFigures f (pnlLocals f) (figures pg) |}).

Definition calculateProfitLoss (pg : Page) : exit * Page :=
  validateAndShow (mirror pg).

(** A page as it is before the first calculation, for a given form. *)
Definition blank (f : Form) : Page :=
  {| form := f;
     panels := {| errorMsg_textContent := Str EmptyString;
                  errorMsg_hidden := true;
                  resultsHeader_hidden := true;
                  resultsTableContainer_hidden := true;
                  finalPL_hidden := true;
                  loadedRateSection_hidden := true |};
     figures := {| buy_row := []; sell_row := [];
                   gross_pl := Str EmptyString; total_charges_pl := Str EmptyString;
                   net_pl := Str EmptyString; net_pl_classList := [];
                   loaded_rate := Str EmptyString |} |}.

Definition mkForm (bq bp : number) (bs : string) (sq sp : number) (ss : string) :=
  {| buyQty := bq; buyPrice := bp; buySegment := bs;
     sellQty := sq; sellPrice := sp; sellSegment := ss |}.


Close Scope js_scope.
Local Open Scope Z_scope.

(** ** Vocabulary of the properties *)

(** Classification of a leg, as the source tests it. *)
Definition isFO (segment : string) : bool := (toUpperCase segment === "F&O")%js.
Definition isDelivery (segment : string) : bool :=
  (toUpperCase segment === "ROLLING T1")%js.
Definition isSELL (action : string) : bool := (toUpperCase action === "SELL")%js.
Definition isBUY (action : string) : bool := (toUpperCase action === "BUY")%js.

(** An upper-case ASCII letter; a string of such letters. *)
Definition letter (c : ascii) : bool :=
  (Nat.leb 65 (nat_of_ascii c) && Nat.leb (nat_of_ascii c) 90)%bool.

Fixpoint letters (s : string) : bool :=
  match s with
  | EmptyString => true
  | String c s' => letter c && letters s'
  end.

(** No character of [upper_two] or [upper_three] starts at the byte [c]
    followed by [s1]. *)
Definition plain_at (c : ascii) (s1 : string) : Prop :=
  forall d s2, s1 = String d s2 ->
    upper_two c d = None
    /\ forall e s3, s2 = String e s3 -> upper_three c d e = None.

(** ASCII text, and its upper case byte by byte. *)
Fixpoint is_ascii_text (s : string) : bool :=
  match s with
  | EmptyString => true
  | String c s' => Nat.ltb (nat_of_ascii c) 128 && is_ascii_text s'
  end.

Fixpoint upper_bytes (s : string) : string :=
  match s with
  | EmptyString => EmptyString
  | String c s' => String (upper_ascii c) (upper_bytes s')
  end.

(** U+0131 (dotless i) and U+017F (long s) in UTF-8, and a segment and an
    action written with them. *)
Definition dotless_i : string := String "196"%char (String "177"%char EmptyString).
Definition long_s : string := String "197"%char (String "191"%char EmptyString).
Definition segment_dotless_i : string := "roll" ++ dotless_i ++ "ng t1".
Definition action_long_s : string := long_s ++ "ell".

(** The sign of a non-negative quantity: [+0], a positive finite number or
    [+Infinity]. *)
Definition sign_pos (x : number) : bool :=
  match x with
  | S754_zero false | S754_infinity false | S754_finite false _ _ => true
  | _ => false
  end.

(** A positive finite number. *)
Definition posfin (x : number) : bool :=
  match x with S754_finite false _ _ => true | _ => false end.

(** A positive normal double in canonical form: 53 significant bits. *)
Definition normal_pos (x : number) : bool :=
  match x with
  | S754_finite false m e =>
      (Z.pos (digits2_pos m) =? 53) && (-1074 <=? e) && (e <=? 971)
  | _ => false
  end.

(** [exponent x = E] when [2^E <= x < 2^(E+1)], for a normal [x]. *)
Definition exponent (x : number) : Z :=
  match x with
  | S754_finite _ m e => e + 52
  | _ => 0
  end.

(** The rational value of a finite number. *)
Definition SF2Q (x : number) : Q :=
  match x with
  | S754_finite s m e =>
      ((if s then -1 else 1) * (inject_Z (Z.pos m) * 2 ^ e))%Q
  | _ => 0%Q
  end.

(** A positive normal double between [2^lo] and [2^(hi+1)]. *)
Definition inrange (lo hi : Z) (x : number) : Prop :=
  normal_pos x = true /\ lo <= exponent x <= hi.

(** The unit roundoff of binary64. *)
Definition u : Q := 1 # (2 ^ 53).

(** [x] is [t] up to the relative error [eps]. *)
Definition close (eps : Q) (x : number) (t : Q) : Prop :=
  (Qabs (SF2Q x - t) <= eps * t)%Q.

(** [c] is a positive normal double within [u] of the decimal rate [R]. *)
Definition rate_ok (c : number) (R : Q) : bool :=
  normal_pos c && Qle_bool (Qabs (SF2Q c - R)) (u * R)
  && negb (Qle_bool R 0).

(** The decimal rates of the schedule, per action and segment. *)
Definition rate_brokerageBase (segment : string) : Q :=
  if isDelivery segment then 704847026178763 # 1000000000000000000
  else 7 # 100000.

Definition rate_brokerage (segment : string) : Q :=
  (rate_brokerageBase segment * (118 # 100))%Q.

Definition rate_stt (action segment : string) : Q :=
  if isFO segment && isSELL action then 2 # 10000
  else if isDelivery segment then 1 # 1000
  else if isSELL action then 25 # 100000
  else 0.

Definition rate_stampDuty (action segment : string) : Q :=
  if isFO segment && isBUY action then 2 # 100000
  else if isDelivery segment then (if isBUY action then 15 # 100000 else 0)
  else (if isBUY action then 3 # 100000 else 0).

(** [mrs] holds the quotient of [a] by [b] and where the remainder lies
    with respect to the half of [b] (round and sticky bits). *)
Definition represents (a b : Z) (mrs : shr_record) : Prop :=
  0 < b /\ 0 <= a /\ shr_m mrs = a / b
  /\ shr_r mrs = (b <=? 2 * (a mod b))
  /\ shr_s mrs = (negb (a mod b =? 0) && negb (2 * (a mod b) =? b))%bool.

(** Replacing what the caller supplied as sell quantity and sell segment. *)
Definition with_sell (pg : Page) (q : number) (seg : string) : Page :=
  let f := form pg in
  {| form := {| buyQty := buyQty f; buyPrice := buyPrice f;
                buySegment := buySegment f;
                sellQty := q; sellPrice := sellPrice f; sellSegment := seg |};
     panels := panels pg;
     figures := figures pg |}.

(** The form the handler reads: the sell side mirrors the buy side. *)
Definition mirrored (f : Form) : Form :=
  mkForm (buyQty f) (buyPrice f) (buySegment f)
         (buyQty f) (sellPrice f) (buySegment f).

(** The page once a result has been shown. *)
Definition shown (pg : Page) (r : PnlLocals) : Page :=
  {| form := mirrored (form pg);
     panels := {| errorMsg_textContent := errorMsg_textContent (panels pg);
                  errorMsg_hidden := true;
                  resultsHeader_hidden := false;
                  resultsTableContainer_hidden := false;
                  finalPL_hidden := false;
                  loadedRateSection_hidden := false |};
     figures := showFigures (mirrored (form pg)) r (figures pg) |}.

(** The page once the input has been refused with message [msg]; the
    results header is hidden only by the first of the two refusals. *)
Definition refused (pg : Page) (msg : string) (hideHeader : bool) : Page :=
  {| form := form pg;
     panels := {| errorMsg_textContent := Str msg;
                  errorMsg_hidden := false;
                  resultsHeader_hidden :=
                    if hideHeader then true else resultsHeader_hidden (panels pg);
                  resultsTableContainer_hidden :=
                    resultsTableContainer_hidden (panels pg);
                  finalPL_hidden := true;
                  loadedRateSection_hidden := true |};
     figures := figures pg |}.

(** ** Concrete inputs used below *)

Definition form_intraday_50 : Form :=
  mkForm (lit 50) (lit 200) "INTRADAY" (lit 50) (lit 210) "INTRADAY".

Definition form_zero_quantity : Form :=
  mkForm (lit 0) (lit 200) "INTRADAY" (lit 50) (lit 210) "INTRADAY".

Definition form_infinite_price : Form :=
  mkForm (lit 10) (S754_infinity false) "INTRADAY" (lit 10) (lit 210) "INTRADAY".

Definition form_negative_sell_quantity : Form :=
  mkForm (lit 10) (lit 200) "INTRADAY" (lit (-5)) (lit 210) "INTRADAY".

Definition form_nan_sell_price : Form :=
  mkForm (lit 10) (lit 200) "INTRADAY" (lit 10) S754_nan "INTRADAY".

Definition form_10_against_20 : Form :=
  mkForm (lit 10) (lit 200) "INTRADAY" (lit 20) (lit 210) "INTRADAY".

Definition form_nine_shares : Form :=
  mkForm (lit 9) (lit 100) "INTRADAY" (lit 9) (lit 110) "ROLLING T1".

(** A quantity (and price) so small that the trade value underflows to 0. *)
Definition tiny : number := lit 1e-200.

(** ** Vocabulary of the further properties *)

(** A number that is a double: a finite one is in canonical form, with at
    most 53 significant bits and an exponent between -1074 and 971. *)
Definition is_double (x : number) : bool := SpecFloat.valid_binary prec emax x.

(** The page after the user has edited the form. *)
Definition with_form (pg : Page) (f : Form) : Page :=
  {| form := f; panels := panels pg; figures := figures pg |}.

(** The marker class of a net profit or loss (lines 176-183). *)
Definition net_class (net : number) : string :=
  if (net > lit 0)%js then "profit"
  else if (net < lit 0)%js then "loss" else "zero".

(** The decimal rate of the SEBI and exchange fees, and of the total. *)
Definition rate_sebiExchange (segment : string) : Q :=
  ((1 # 1000000) + (if isFO segment then 183 # 10000000 else 307 # 10000000))%Q.

Definition rate_total (action segment : string) : Q :=
  (rate_stt action segment + rate_sebiExchange segment
   + rate_stampDuty action segment + rate_brokerage segment)%Q.

(** [x] is 0 or a positive normal double below [2^(hi+1)]. *)
Definition zero_or_normal (hi : Z) (x : number) : Prop :=
  x = lit 0 \/ (normal_pos x = true /\ exponent x <= hi).

(** The integer nearest to a finite double, a half going up. *)
Definition nearest_integer (x : number) : Z := Qfloor (SF2Q x + (1 # 2)).

(** * Part II: properties *)

(** ** Strings *)

Lemma lit_zero : (lit 0)%js = S754_zero false.
Proof. reflexivity. Qed.

Lemma FO_not_delivery segment : isFO segment = true -> isDelivery segment = false.
Proof.
  unfold isFO, isDelivery. intros H.
  apply String.eqb_eq in H. rewrite H. reflexivity.
Qed.

Lemma delivery_not_FO segment : isDelivery segment = true -> isFO segment = false.
Proof.
  unfold isFO, isDelivery. intros H.
  apply String.eqb_eq in H. rewrite H. reflexivity.
Qed.

Lemma BUY_not_SELL action : isBUY action = true -> isSELL action = false.
Proof.
  unfold isBUY, isSELL. intros H.
  apply String.eqb_eq in H. rewrite H. reflexivity.
Qed.

Lemma SELL_not_BUY action : isSELL action = true -> isBUY action = false.
Proof.
  unfold isBUY, isSELL. intros H.
  apply String.eqb_eq in H. rewrite H. reflexivity.
Qed.

Lemma upper_ascii_idem c : upper_ascii (upper_ascii c) = upper_ascii c.
Proof. destruct c as [[] [] [] [] [] [] [] []]; reflexivity. Qed.

Lemma upper_ascii_cases c : upper_ascii c = c \/ letter (upper_ascii c) = true.
Proof. destruct c as [[] [] [] [] [] [] [] []]; auto. Qed.

Lemma letter_upper c : letter c = true -> upper_ascii c = c.
Proof. destruct c as [[] [] [] [] [] [] [] []]; try reflexivity; discriminate. Qed.

Ltac split_eqb :=
  repeat match goal with
    | |- context [Ascii.eqb ?a ?b] =>
        destruct (Ascii.eqb_spec a b) as [->|?]; cbn [andb]
    | H : context [Ascii.eqb ?a ?b] |- _ =>
        destruct (Ascii.eqb_spec a b) as [->|?]; cbn [andb] in H
    end.

Lemma upper_two_letters c d t :
  upper_two c d = Some t ->
  letter c = false /\ letter d = false /\ letters t = true /\ t <> EmptyString.
Proof.
  unfold upper_two. intros H. split_eqb; inversion H; subst;
    repeat split; discriminate.
Qed.

Lemma upper_three_letters c d e t :
  upper_three c d e = Some t ->
  letter c = false /\ letter d = false /\ letter e = false
  /\ letters t = true /\ t <> EmptyString.
Proof.
  unfold upper_three. intros H. split_eqb; inversion H; subst;
    repeat split; discriminate.
Qed.

(** One step of the scan: a byte is upper-cased on its own when no character
    of two or three bytes starts at it. *)
Lemma toUpperCase_cases c s1 :
  (plain_at c s1
   /\ toUpperCase (String c s1) = String (upper_ascii c) (toUpperCase s1))
  \/ (exists d s2 t, s1 = String d s2 /\ upper_two c d = Some t
        /\ toUpperCase (String c s1) = t ++ toUpperCase s2)
  \/ (exists d e s3 t, s1 = String d (String e s3)
        /\ upper_three c d e = Some t
        /\ toUpperCase (String c s1) = t ++ toUpperCase s3).
Proof.
  destruct s1 as [|d [|e s3]]; cbn [toUpperCase]; cbv zeta.
  - left. split; [|reflexivity]. intros d s2 H. discriminate.
  - destruct (upper_two c d) as [t|] eqn:E2.
    + right; left. now exists d, EmptyString, t.
    + left. split; [|reflexivity]. intros d' s2 H. inversion H; subst.
      split; [exact E2|discriminate].
  - destruct (upper_two c d) as [t|] eqn:E2.
    + right; left. now exists d, (String e s3), t.
    + destruct (upper_three c d e) as [t|] eqn:E3.
      * right; right. now exists d, e, s3, t.
      * left. split; [|reflexivity].
        intros d' s2 H. inversion H; subst. split; [exact E2|].
        intros e' s3' H'. inversion H'; subst. exact E3.
Qed.

Lemma toUpperCase_letter c s :
  letter c = true -> toUpperCase (String c s) = String c (toUpperCase s).
Proof.
  intros L.
  destruct (toUpperCase_cases c s)
    as [[_ E]|[(d & s2 & t & _ & E2 & _)|(d & e & s3 & t & _ & E3 & _)]].
  - now rewrite E, (letter_upper c L).
  - apply upper_two_letters in E2. destruct E2 as (L' & _). congruence.
  - apply upper_three_letters in E3. destruct E3 as (L' & _). congruence.
Qed.

Lemma toUpperCase_letters t s :
  letters t = true -> toUpperCase (t ++ s) = t ++ toUpperCase s.
Proof.
  induction t as [|c t IH]; cbn [letters append]; [reflexivity|].
  intros H. apply andb_true_iff in H. destruct H as [L H].
  now rewrite toUpperCase_letter, IH.
Qed.

Lemma letters_head t s :
  letters t = true -> t <> EmptyString -> exists h T, t ++ s = String h T /\ letter h = true.
Proof.
  destruct t as [|h t]; [congruence|]. cbn [letters]. intros H _.
  apply andb_true_iff in H. destruct H as [L _].
  now exists h, (t ++ s).
Qed.

(** The first byte of an upper-cased string is a letter, or it is the first
    byte of the string, left as it is and followed by the upper-cased
    rest. *)
Lemma toUpperCase_head d s2 :
  exists h T, toUpperCase (String d s2) = String h T
    /\ (letter h = true \/ (h = d /\ T = toUpperCase s2)).
Proof.
  destruct (toUpperCase_cases d s2)
    as [[_ E]|[(d' & s' & t & _ & E2 & E)|(d' & e & s3 & t & _ & E3 & E)]].
  - exists (upper_ascii d), (toUpperCase s2). split; [exact E|].
    destruct (upper_ascii_cases d) as [Ed|L]; [right|now left].
    now rewrite Ed.
  - destruct (upper_two_letters _ _ _ E2) as (_ & _ & Lt & Nt).
    destruct (letters_head t (toUpperCase s') Lt Nt) as (h & T & ET & L).
    exists h, T. rewrite E, ET. auto.
  - destruct (upper_three_letters _ _ _ _ E3) as (_ & _ & _ & Lt & Nt).
    destruct (letters_head t (toUpperCase s3) Lt Nt) as (h & T & ET & L).
    exists h, T. rewrite E, ET. auto.
Qed.

(** A byte that was upper-cased on its own is still so in the result. *)
Lemma plain_at_upper c s1 :
  plain_at c s1 -> plain_at (upper_ascii c) (toUpperCase s1).
Proof.
  intros Hs h T EH.
  destruct s1 as [|d1 s2]; [discriminate|].
  destruct (upper_ascii_cases c) as [Ec|Lc].
  - rewrite Ec.
    destruct (toUpperCase_head d1 s2) as (h' & T' & EH' & Hh).
    rewrite EH' in EH. inversion EH; subst h' T'. clear EH.
    destruct (Hs _ _ eq_refl) as [N2 N3].
    destruct Hh as [Lh|(-> & ->)].
    + split.
      * destruct (upper_two c h) as [t|] eqn:E; [|reflexivity].
        apply upper_two_letters in E. destruct E as (_ & L & _). congruence.
      * intros e s3 _. destruct (upper_three c h e) as [t|] eqn:E; [|reflexivity].
        apply upper_three_letters in E. destruct E as (_ & L & _). congruence.
    + split; [exact N2|]. intros h2 T2 EH2.
      destruct s2 as [|e1 s3]; [discriminate|].
      destruct (toUpperCase_head e1 s3) as (h3 & T3 & EH3 & Hh).
      rewrite EH3 in EH2. inversion EH2; subst h3 T3. clear EH2.
      destruct Hh as [Lh|(-> & ->)]; [|now apply (N3 _ _ eq_refl)].
      destruct (upper_three c d1 h2) as [t|] eqn:E; [|reflexivity].
      apply upper_three_letters in E. destruct E as (_ & _ & L & _). congruence.
  - split.
    + destruct (upper_two (upper_ascii c) h) as [t|] eqn:E; [|reflexivity].
      apply upper_two_letters in E. destruct E as (L & _). congruence.
    + intros e s3 _.
      destruct (upper_three (upper_ascii c) h e) as [t|] eqn:E; [|reflexivity].
      apply upper_three_letters in E. destruct E as (L & _). congruence.
Qed.

Lemma toUpperCase_idem_le n :
  forall s, (String.length s <= n)%nat ->
  toUpperCase (toUpperCase s) = toUpperCase s.
Proof.
  induction n as [|n IH]; intros s Hn.
  - destruct s; [reflexivity|cbn in Hn; lia].
  - destruct s as [|c s1]; [reflexivity|]. cbn [String.length] in Hn.
    destruct (toUpperCase_cases c s1)
      as [[Hs E]|[(d & s2 & t & -> & E2 & E)|(d & e & s3 & t & -> & E3 & E)]].
    + rewrite E.
      assert (IH1 : toUpperCase (toUpperCase s1) = toUpperCase s1)
        by (apply IH; lia).
      pose proof (plain_at_upper c s1 Hs) as Hp.
      destruct (toUpperCase_cases (upper_ascii c) (toUpperCase s1))
        as [[_ E']|[(d & s2 & t & Es & E2 & _)|(d & e & s3 & t & Es & E3 & _)]].
      * now rewrite E', upper_ascii_idem, IH1.
      * destruct (Hp _ _ Es) as [N2 _]. congruence.
      * destruct (Hp _ _ Es) as [_ N3]. specialize (N3 _ _ eq_refl). congruence.
    + cbn [String.length] in Hn. rewrite E.
      destruct (upper_two_letters _ _ _ E2) as (_ & _ & Lt & _).
      rewrite toUpperCase_letters by exact Lt. f_equal. apply IH. lia.
    + cbn [String.length] in Hn. rewrite E.
      destruct (upper_three_letters _ _ _ _ E3) as (_ & _ & _ & Lt & _).
      rewrite toUpperCase_letters by exact Lt. f_equal. apply IH. lia.
Qed.

Lemma toUpperCase_idem s : toUpperCase (toUpperCase s) = toUpperCase s.
Proof. apply (toUpperCase_idem_le (String.length s)). lia. Qed.

(** On ASCII text the upper case is taken byte by byte. *)
Lemma toUpperCase_ascii_text s :
  is_ascii_text s = true -> toUpperCase s = upper_bytes s.
Proof.
  induction s as [|c s IH]; [reflexivity|]. cbn [is_ascii_text upper_bytes].
  intros H. apply andb_true_iff in H. destruct H as [Hc Hs].
  destruct (toUpperCase_cases c s)
    as [[_ E]|[(d & s2 & t & _ & E2 & _)|(d & e & s3 & t & _ & E3 & _)]].
  - now rewrite E, IH.
  - exfalso. unfold upper_two in E2. split_eqb; discriminate.
  - exfalso. unfold upper_three in E3. split_eqb; discriminate.
Qed.

(** The segment and action tests ignore the case of the letters. *)
Lemma classification_ignores_case s :
  isFO (toUpperCase s) = isFO s /\ isDelivery (toUpperCase s) = isDelivery s
  /\ isSELL (toUpperCase s) = isSELL s /\ isBUY (toUpperCase s) = isBUY s.
Proof.
  unfold isFO, isDelivery, isSELL, isBUY.
  now rewrite toUpperCase_idem.
Qed.

Example classification_examples :
  isFO "f&o" = true /\ isFO "F&o" = true /\ isDelivery "Rolling t1" = true
  /\ isDelivery "rolling T1" = true /\ isFO "INTRADAY" = false
  /\ isDelivery "intraday" = false /\ isSELL "sell" = true /\ isBUY "Buy" = true.
Proof. repeat split. Qed.

(** Outside ASCII: a dotless i counts as I and a long s as S, so that a
    segment written with the one is the delivery segment and an action
    written with the other is a sale; U+00DF and the ligatures give ASCII
    text too; another character (here U+00E9) is kept. *)
Example upper_casing_outside_ascii :
  toUpperCase segment_dotless_i = "ROLLING T1"
  /\ toUpperCase action_long_s = "SELL"
  /\ isDelivery segment_dotless_i = true /\ isSELL action_long_s = true
  /\ toUpperCase (String "195"%char (String "159"%char "e")) = "SSE"
  /\ toUpperCase (String "239"%char (String "172"%char (String "131"%char "x")))
     = "FFIX"
  /\ toUpperCase (String "239"%char (String "172"%char (String "134"%char "x")))
     = "STX"
  /\ toUpperCase (String "195"%char (String "169"%char "a"))
     = String "195"%char (String "169"%char "A").
Proof. repeat split. Qed.

(** ** Signs through rounding *)

Section Signs.

Lemma iter_pos_inv {A} (P : A -> Prop) (f : A -> A) :
  (forall x, P x -> P (f x)) -> forall n x, P x -> P (iter_pos f n x).
Proof.
  intros Hf. induction n as [n IH|n IH|]; simpl; intros x Hx; auto.
Qed.

Lemma shr_1_nonneg mrs : 0 <= shr_m mrs -> 0 <= shr_m (shr_1 mrs).
Proof.
  destruct mrs as [m r s].
  destruct m as [|[p|p|]|[p|p|]]; simpl; lia.
Qed.

Lemma shr_nonneg mrs e n : 0 <= shr_m mrs -> 0 <= shr_m (fst (shr mrs e n)).
Proof.
  intros H. destruct n as [|p|p]; simpl; auto.
  apply (iter_pos_inv (fun x => 0 <= shr_m x)); auto using shr_1_nonneg.
Qed.

Lemma shr_record_of_loc_m m l : shr_m (shr_record_of_loc m l) = m.
Proof. destruct l as [|[]]; reflexivity. Qed.

Lemma shr_fexp_nonneg m e l :
  0 <= m -> 0 <= shr_m (fst (shr_fexp prec emax m e l)).
Proof.
  intros H. unfold shr_fexp. apply shr_nonneg.
  now rewrite shr_record_of_loc_m.
Qed.

Lemma round_nearest_even_nonneg m l : 0 <= m -> 0 <= round_nearest_even m l.
Proof.
  intros H. destruct l as [|[]]; simpl; try lia.
  destruct (Z.even m); lia.
Qed.

(** Rounding a non-negative mantissa never yields NaN and keeps the sign. *)
Lemma binary_round_aux_sign m e l :
  0 <= m -> sign_pos (binary_round_aux prec emax false m e l) = true.
Proof.
  intros H. unfold binary_round_aux.
  pose proof (shr_fexp_nonneg m e l H) as H1.
  destruct (shr_fexp prec emax m e l) as [mrs' e'].
  simpl in H1.
  pose proof (shr_fexp_nonneg _ e' loc_Exact
                (round_nearest_even_nonneg _ (loc_of_shr_record mrs') H1)) as H2.
  destruct (shr_fexp prec emax _ e' loc_Exact) as [mrs'' e''].
  simpl in H2.
  destruct (shr_m mrs'') as [|p|p]; try reflexivity; [|lia].
  destruct (e'' <=? emax - prec); reflexivity.
Qed.

Lemma mul_sign x c : sign_pos x = true -> posfin c = true -> sign_pos (x * c)%js = true.
Proof.
  destruct x as [[]|[]| |[] mx ex]; try discriminate;
    destruct c as [[]|[]| |[] mc ec]; try discriminate; intros _ _;
    try reflexivity.
  apply binary_round_aux_sign. lia.
Qed.

Lemma add_sign x y : sign_pos x = true -> sign_pos y = true -> sign_pos (x + y)%js = true.
Proof.
  destruct x as [[]|[]| |[] mx ex]; try discriminate;
    destruct y as [[]|[]| |[] my ey]; try discriminate; intros _ _;
    try reflexivity.
  unfold add, SFadd. simpl cond_Zopp.
  unfold binary_normalize, binary_round.
  destruct (shl_align my ey _) as [a ?], (shl_align mx ex _) as [b ?]; simpl fst.
  change (Z.pos b + Z.pos a) with (Z.pos (b + a)). cbv iota beta.
  destruct (shl_align (b + a) _ _) as [mz ez].
  apply binary_round_aux_sign. lia.
Qed.

Lemma gt_zero_sign x : (x > lit 0)%js = true -> posfin x = true \/ x = S754_infinity false.
Proof.
  rewrite lit_zero. destruct x as [[]|[]| |[] m e]; try discriminate; auto.
Qed.

Lemma sign_pos_le x : sign_pos x = true -> (lit 0 <= x)%js = true.
Proof.
  rewrite lit_zero. destruct x as [[]|[]| |[] m e]; try discriminate; auto.
Qed.

Lemma sign_if (c : bool) x y :
  sign_pos x = true -> sign_pos y = true -> sign_pos (if c then x else y) = true.
Proof. now destruct c. Qed.

Lemma posfin_sign x : posfin x = true -> sign_pos x = true.
Proof. destruct x as [[]|[]| |[] m e]; try discriminate; auto. Qed.

(** The trade value of a leg with a positive quantity and price. *)
Lemma tradeValue_sign q p :
  (q > lit 0)%js = true -> (p > lit 0)%js = true -> sign_pos (q * p)%js = true.
Proof.
  intros Hq Hp.
  destruct (gt_zero_sign _ Hq) as [Hq'| ->], (gt_zero_sign _ Hp) as [Hp'| ->].
  - apply mul_sign; auto using posfin_sign.
  - destruct q as [[]|[]| |[] m e]; try discriminate; reflexivity.
  - destruct p as [[]|[]| |[] m e]; try discriminate; reflexivity.
  - reflexivity.
Qed.

(** Math.round keeps the sign of a non-negative number. *)
Lemma Math_round_sign x : sign_pos x = true -> sign_pos (Math_round x) = true.
Proof.
  destruct x as [[]|[]| |[] m e]; try discriminate; intros _; try reflexivity.
  unfold Math_round. destruct (0 <=? e); [reflexivity|].
  set (n := Z.shiftr _ _).
  assert (Hn : 0 <= n).
  { subst n. apply Z.shiftr_nonneg.
    assert (0 <= Z.shiftl 1 (- e)) by (apply Z.shiftl_nonneg; lia). lia. }
  destruct n as [|p|p]; try lia; [reflexivity|].
  cbn [binary_normalize]. unfold binary_round.
  destruct (shl_align p 0 _) as [mz ez].
  apply binary_round_aux_sign. lia.
Qed.

End Signs.

(** ** The fee schedule of calculateTradeCharges *)

Ltac by_cases segment action :=
  unfold tradeLocals, isFO, isDelivery, isSELL, isBUY in *; cbn [l_stt l_stampDuty];
  repeat match goal with
         | H : (_ === _)%js = _ |- _ => rewrite H
         end;
  cbn [andb]; try reflexivity.

(** C2.  For a leg with positive quantity and price the STT is
    0.0002 x tradeValue for an F&O SELL; otherwise 0.001 x tradeValue in the
    delivery segment, whatever the action; otherwise 0.00025 x tradeValue
    for a SELL; otherwise 0.  A BUY in the F&O segment pays no STT. *)
Theorem stt_schedule (qty price : number) (action segment : string) :
  (qty > lit 0)%js = true -> (price > lit 0)%js = true ->
  let l := tradeLocals qty price action segment in
  let tv := (qty * price)%js in
  (isFO segment = true -> isSELL action = true ->
     l_stt l = (tv * lit 0.0002)%js)
  /\ (isDelivery segment = true -> l_stt l = (tv * lit 0.001)%js)
  /\ (isFO segment = false -> isDelivery segment = false ->
      isSELL action = true -> l_stt l = (tv * lit 0.00025)%js)
  /\ (isDelivery segment = false -> isSELL action = false -> l_stt l = (lit 0)%js)
  /\ (isFO segment = true -> isBUY action = true -> l_stt l = (lit 0)%js).
Proof.
  intros _ _ l tv. subst l tv. repeat split.
  - intros HF HS. by_cases segment action.
  - intros HD. pose proof (delivery_not_FO _ HD) as HF. by_cases segment action.
  - intros HF HD HS. by_cases segment action.
  - intros HD HS. by_cases segment action.
    now rewrite andb_false_r.
  - intros HF HB. pose proof (FO_not_delivery _ HF) as HD.
    pose proof (BUY_not_SELL _ HB) as HS. by_cases segment action.
Qed.

Lemma stt_schedule_witness :
  l_stt (tradeLocals (lit 100) (lit 1000) "SELL" "F&O") = ((lit 100 * lit 1000) * lit 0.0002)%js.
Proof.
  apply (stt_schedule (lit 100)%js (lit 1000)%js "SELL" "F&O"); reflexivity.
Defined.

(** The part of C3 that is the schedule itself: the stamp duty is
    0.00002 x tradeValue for an F&O BUY, 0.00015 x tradeValue for a delivery
    BUY, 0.00003 x tradeValue for any other BUY, and 0 for every SELL. *)
Lemma stampDuty_cases (qty price : number) (action segment : string) :
  let l := tradeLocals qty price action segment in
  let tv := (qty * price)%js in
  (isFO segment = true -> isBUY action = true ->
     l_stampDuty l = (tv * lit 0.00002)%js)
  /\ (isDelivery segment = true -> isBUY action = true ->
      l_stampDuty l = (tv * lit 0.00015)%js)
  /\ (isFO segment = false -> isDelivery segment = false ->
      isBUY action = true -> l_stampDuty l = (tv * lit 0.00003)%js)
  /\ (isSELL action = true -> l_stampDuty l = S754_zero false).
Proof.
  intros l tv. subst l tv. repeat split.
  - intros HF HB. by_cases segment action.
  - intros HD HB. pose proof (delivery_not_FO _ HD) as HF. by_cases segment action.
  - intros HF HD HB. by_cases segment action.
  - intros HS. pose proof (SELL_not_BUY _ HS) as HB. by_cases segment action.
    rewrite andb_false_r.
    destruct (toUpperCase segment === "ROLLING T1")%js; reflexivity.
Qed.

(** C4.  The brokerage base is tradeValue x 0.000704847026178763 in the
    delivery segment and tradeValue x 0.00007 in every other segment; the
    GST is 0.18 x base; the total brokerage is base + GST. *)
Theorem brokerage_schedule (qty price : number) (action segment : string) :
  (qty > lit 0)%js = true -> (price > lit 0)%js = true ->
  let l := tradeLocals qty price action segment in
  let tv := (qty * price)%js in
  (isDelivery segment = true ->
     l_brokerageBase l = (tv * lit 0.000704847026178763)%js)
  /\ (isDelivery segment = false -> l_brokerageBase l = (tv * lit 0.00007)%js)
  /\ l_brokerageGST l = (l_brokerageBase l * lit 0.18)%js
  /\ l_totalBrokerage l = (l_brokerageBase l + l_brokerageGST l)%js
  /\ totalBrokerage (calculateTradeCharges qty price action segment)
     = Math_round (l_totalBrokerage l).
Proof.
  intros _ _ l tv. subst l tv. unfold tradeLocals, isDelivery.
  cbn [l_brokerageBase l_brokerageGST l_totalBrokerage].
  repeat split; intros ->; reflexivity.
Qed.

Lemma brokerage_schedule_witness :
  l_brokerageBase (tradeLocals (lit 100) (lit 1000) "BUY" "ROLLING T1")
  = ((lit 100 * lit 1000) * lit 0.000704847026178763)%js.
Proof.
  apply (brokerage_schedule (lit 100)%js (lit 1000)%js "BUY" "ROLLING T1"); reflexivity.
Defined.

(** C5.  The SEBI turnover fee is tradeValue x 0.000001 for every leg; the
    exchange transaction fee is tradeValue x 0.0000183 in the F&O segment
    and tradeValue x 0.0000307 in every other segment; sebiExchangeCharges
    is their sum (the returned object carries it through Math.round). *)
Theorem sebi_exchange_schedule (qty price : number) (action segment : string) :
  (qty > lit 0)%js = true -> (price > lit 0)%js = true ->
  let l := tradeLocals qty price action segment in
  let tv := (qty * price)%js in
  l_sebiTurnover l = (tv * lit 0.000001)%js
  /\ (isFO segment = true -> l_exchangeCharges l = (tv * lit 0.0000183)%js)
  /\ (isFO segment = false -> l_exchangeCharges l = (tv * lit 0.0000307)%js)
  /\ l_sebiExchangeCharges l = (l_sebiTurnover l + l_exchangeCharges l)%js
  /\ sebiExchangeCharges (calculateTradeCharges qty price action segment)
     = Math_round (l_sebiExchangeCharges l).
Proof.
  intros _ _ l tv. subst l tv. unfold tradeLocals, isFO.
  cbn [l_sebiTurnover l_exchangeCharges l_sebiExchangeCharges].
  repeat split; intros ->; reflexivity.
Qed.

Lemma sebi_exchange_schedule_witness :
  l_sebiTurnover (tradeLocals (lit 100) (lit 1000) "SELL" "F&O")
  = ((lit 100 * lit 1000) * lit 0.000001)%js.
Proof.
  apply (sebi_exchange_schedule (lit 100)%js (lit 1000)%js "SELL" "F&O"); reflexivity.
Defined.

(** Every charge of a leg with a positive quantity and price carries the
    sign of a non-negative number. *)
Lemma charges_sign (qty price : number) (action segment : string) :
  (qty > lit 0)%js = true -> (price > lit 0)%js = true ->
  let l := tradeLocals qty price action segment in
  sign_pos (l_tradeValue l) = true
  /\ sign_pos (l_brokerageBase l) = true
  /\ sign_pos (l_totalBrokerage l) = true
  /\ sign_pos (l_stt l) = true
  /\ sign_pos (l_sebiExchangeCharges l) = true
  /\ sign_pos (l_stampDuty l) = true
  /\ sign_pos (l_totalCharges l) = true.
Proof.
  intros Hq Hp l. subst l.
  pose proof (tradeValue_sign _ _ Hq Hp) as Htv.
  unfold tradeLocals.
  cbn [l_tradeValue l_brokerageBase l_totalBrokerage l_stt
       l_sebiExchangeCharges l_stampDuty l_totalCharges].
  set (tv := (qty * price)%js) in *.
  assert (Hm : forall c, posfin c = true -> sign_pos (tv * c)%js = true)
    by (intros; now apply mul_sign).
  assert (Hbase : sign_pos (if (toUpperCase segment === "ROLLING T1")%js
                            then (tv * RATE_BROKERAGE_DELIVERY)%js
                            else (tv * lit 0.00007)%js) = true)
    by (apply sign_if; apply Hm; reflexivity).
  assert (Hgst : forall base, sign_pos base = true ->
                 sign_pos (base * TAX_GST)%js = true)
    by (intros; apply mul_sign; auto).
  repeat split; auto;
    repeat first [ assumption | apply Hm; reflexivity | reflexivity
                 | apply Hgst | apply add_sign | apply sign_if ].
Qed.

(** C6.  For a positive quantity and price the exact trade value is
    qty x price, the exact total is
    stt + sebiExchangeCharges + stampDuty + totalBrokerage, both are
    returned unrounded next to their Math.round, and the total, exact or
    rounded, is at least 0. *)
Theorem totals_exact_and_nonneg (qty price : number) (action segment : string) :
  (qty > lit 0)%js = true -> (price > lit 0)%js = true ->
  let l := tradeLocals qty price action segment in
  let r := calculateTradeCharges qty price action segment in
  _originalTradeValue r = (qty * price)%js
  /\ _originalTotalCharges r
     = (l_stt l + l_sebiExchangeCharges l + l_stampDuty l + l_totalBrokerage l)%js
  /\ tradeValue r = Math_round (qty * price)%js
  /\ totalCharges r = Math_round (_originalTotalCharges r)
  /\ (lit 0 <= _originalTotalCharges r)%js = true
  /\ (lit 0 <= totalCharges r)%js = true.
Proof.
  intros Hq Hp l r. subst l r.
  destruct (charges_sign qty price action segment Hq Hp)
    as (_ & _ & _ & _ & _ & _ & S).
  repeat (split; [reflexivity|]).
  split; apply sign_pos_le; [exact S|].
  now apply Math_round_sign.
Qed.

Lemma totals_exact_and_nonneg_witness :
  (lit 0 <= _originalTotalCharges
              (calculateTradeCharges (lit 100) (lit 1000) "BUY" "ROLLING T1"))%js
  = true.
Proof.
  apply (totals_exact_and_nonneg (lit 100) (lit 1000) "BUY" "ROLLING T1");
    reflexivity.
Defined.

(** The worked examples: 100 at 1000 as a delivery BUY and as an F&O SELL. *)
Example delivery_buy_100_at_1000 :
  let c := calculateTradeCharges (lit 100) (lit 1000) "BUY" "ROLLING T1" in
  tradeValue c = lit 100000 /\ stt c = lit 100
  /\ sebiExchangeCharges c = lit 3 /\ stampDuty c = lit 15
  /\ totalBrokerage c = lit 83 /\ totalCharges c = lit 201
  /\ (lit 201.34 < _originalTotalCharges c)%js = true
  /\ (_originalTotalCharges c < lit 201.35)%js = true.
Proof. vm_compute. repeat split. Qed.

Example fo_sell_100_at_1000 :
  let c := calculateTradeCharges (lit 100) (lit 1000) "SELL" "F&O" in
  tradeValue c = lit 100000 /\ stt c = lit 20
  /\ sebiExchangeCharges c = lit 2 /\ stampDuty c = lit 0
  /\ totalBrokerage c = lit 8 /\ totalCharges c = lit 30
  /\ (lit 30.18 < _originalTotalCharges c)%js = true
  /\ (_originalTotalCharges c < lit 30.19)%js = true.
Proof. vm_compute. repeat split. Qed.

(** A segment written with a dotless i is charged as delivery, and an
    action written with a long s as a sale, as JavaScript's toUpperCase has
    them. *)
Example charges_outside_ascii :
  let c := calculateTradeCharges (lit 100) (lit 1000) "BUY" segment_dotless_i in
  let c' := calculateTradeCharges (lit 100) (lit 1000) action_long_s "INTRADAY" in
  c = calculateTradeCharges (lit 100) (lit 1000) "BUY" "ROLLING T1"
  /\ stt c = lit 100 /\ stampDuty c = lit 15
  /\ totalBrokerage c = lit 83 /\ totalCharges c = lit 201
  /\ c' = calculateTradeCharges (lit 100) (lit 1000) "SELL" "INTRADAY"
  /\ stt c' = lit 25 /\ totalCharges c' = lit 36.
Proof. vm_compute. repeat split. Qed.

Example Math_round_examples :
  Math_round (lit 2.5) = lit 3 /\ Math_round (lit (-2.5)) = lit (-2)
  /\ Math_round (lit 0.5) = lit 1 /\ Math_round (lit (-0.5)) = S754_zero true
  /\ Math_round (lit 0.49999999999999994) = lit 0
  /\ Math_round (lit 3.17) = lit 3 /\ Math_round (lit 4503599627370497) = lit 4503599627370497
  /\ Math_round S754_nan = S754_nan.
Proof. vm_compute. repeat split. Qed.

(** ** The handler calculateProfitLoss *)

Lemma SFeqb_refl x : isNaN x = false -> SFeqb x x = true.
Proof.
  destruct x as [s|s| |s m e]; try discriminate; intros _; unfold SFeqb; simpl.
  - reflexivity.
  - now destruct s.
  - rewrite Z.compare_refl, Pos.compare_cont_refl. now destruct s.
Qed.

Lemma invalid_false f :
  invalid f = false ->
  (buyQty f <= lit 0)%js = false /\ (buyPrice f <= lit 0)%js = false
  /\ (sellQty f <= lit 0)%js = false /\ (sellPrice f <= lit 0)%js = false
  /\ isNaN (buyQty f) = false /\ isNaN (buyPrice f) = false.
Proof.
  unfold invalid. intros H.
  repeat (apply orb_false_iff in H; destruct H as [H ?]). auto 10.
Qed.

Lemma gt_zero_not_le x : (x > lit 0)%js = true -> (x <= lit 0)%js = false.
Proof.
  rewrite lit_zero. destruct x as [[]|[]| |[] m e]; try discriminate; auto.
Qed.

Lemma gt_zero_not_nan x : (x > lit 0)%js = true -> isNaN x = false.
Proof.
  rewrite lit_zero. destruct x as [[]|[]| |[] m e]; try discriminate; auto.
Qed.

Lemma form_mirror pg : form (mirror pg) = mirrored (form pg).
Proof. reflexivity. Qed.

(** When the validation test passes, the handler shows the result computed
    from the mirrored form. *)
Lemma valid_shown pg :
  invalid (mirrored (form pg)) = false ->
  calculateProfitLoss pg = (ExitShown, shown pg (pnlLocals (mirrored (form pg)))).
Proof.
  intros Hv. unfold calculateProfitLoss, validateAndShow.
  rewrite form_mirror, Hv.
  destruct (invalid_false _ Hv) as (_ & _ & _ & _ & Hn & _).
  unfold strict_ne. cbn [mirrored mkForm buyQty sellQty] in *.
  now rewrite (SFeqb_refl _ Hn).
Qed.

Lemma invalid_refused pg :
  invalid (mirrored (form pg)) = true ->
  calculateProfitLoss pg = (ExitInvalid, refused (mirror pg) msgInvalid true).
Proof.
  intros Hv. unfold calculateProfitLoss, validateAndShow.
  now rewrite form_mirror, Hv.
Qed.

(** C10.  The handler overwrites the sell quantity and the sell segment
    with the buy side's before it reads anything: whatever the caller
    supplies for them, the exit taken and the whole resulting page (both
    breakdown rows, gross and net P&L, total charges, break-even price) are
    the same; and the quantity-mismatch exit is never taken.  The form the
    handler reads, and leaves on the page, has the buy quantity as sell
    quantity and the buy segment as sell segment, the buy side and the sell
    price being kept; the sell leg is charged for the buy quantity in the
    buy segment. *)
Theorem sell_side_overwritten (pg : Page) (q : number) (seg : string) :
  calculateProfitLoss (with_sell pg q seg) = calculateProfitLoss pg
  /\ mirror (with_sell pg q seg) = mirror pg
  /\ fst (calculateProfitLoss pg) <> ExitMismatch
  /\ form (mirror pg) = mirrored (form pg)
  /\ sellQty (form (mirror (with_sell pg q seg))) = buyQty (form pg)
  /\ sellSegment (form (mirror (with_sell pg q seg))) = buySegment (form pg)
  /\ form (snd (calculateProfitLoss (with_sell pg q seg))) = mirrored (form pg)
  /\ sellChargesActual (pnlLocals (form (mirror (with_sell pg q seg))))
     = calculateTradeCharges (buyQty (form pg)) (sellPrice (form pg)) "SELL"
         (buySegment (form pg)).
Proof.
  split; [reflexivity|]. split; [reflexivity|].
  split.
  { destruct (invalid (mirrored (form pg))) eqn:Hv.
    - now rewrite (invalid_refused _ Hv).
    - now rewrite (valid_shown _ Hv). }
  split; [reflexivity|]. split; [reflexivity|]. split; [reflexivity|].
  split; [|reflexivity].
  change (calculateProfitLoss (with_sell pg q seg)) with (calculateProfitLoss pg).
  destruct (invalid (mirrored (form pg))) eqn:Hv.
  - now rewrite (invalid_refused _ Hv).
  - now rewrite (valid_shown _ Hv).
Qed.

Lemma invalid_mirrored_iff f :
  invalid (mirrored f) = true <->
  (buyQty f <= lit 0)%js = true \/ isNaN (buyQty f) = true
  \/ (buyPrice f <= lit 0)%js = true \/ isNaN (buyPrice f) = true
  \/ (sellPrice f <= lit 0)%js = true.
Proof.
  unfold invalid, mirrored, mkForm; cbn [buyQty buyPrice sellQty sellPrice].
  repeat rewrite orb_true_iff. tauto.
Qed.

(** C7, as the code has it.  When the buy quantity is at most 0 or NaN, or
    the buy price is at most 0 or NaN, or the sell price is at most 0, the
    handler takes the invalid-input exit: the message is shown, the results
    header, the P&L summary and the break-even section are hidden, and no
    breakdown row or P&L figure is written (no charge is computed). *)
Theorem invalid_input_refused (pg : Page) :
  (buyQty (form pg) <= lit 0)%js = true \/ isNaN (buyQty (form pg)) = true
  \/ (buyPrice (form pg) <= lit 0)%js = true \/ isNaN (buyPrice (form pg)) = true
  \/ (sellPrice (form pg) <= lit 0)%js = true ->
  calculateProfitLoss pg = (ExitInvalid, refused (mirror pg) msgInvalid true)
  /\ figures (snd (calculateProfitLoss pg)) = figures pg
  /\ errorMsg_hidden (panels (snd (calculateProfitLoss pg))) = false
  /\ finalPL_hidden (panels (snd (calculateProfitLoss pg))) = true
  /\ loadedRateSection_hidden (panels (snd (calculateProfitLoss pg))) = true.
Proof.
  intros H. apply invalid_mirrored_iff in H.
  rewrite (invalid_refused _ H). repeat split.
Qed.

Lemma invalid_input_refused_witness :
  fst (calculateProfitLoss (blank form_zero_quantity)) = ExitInvalid
  /\ figures (snd (calculateProfitLoss (blank form_zero_quantity)))
     = figures (blank form_zero_quantity).
Proof.
  destruct (invalid_input_refused (blank form_zero_quantity) (or_introl eq_refl))
    as (H1 & H2 & _).
  split; [now rewrite H1|exact H2].
Defined.

(** C7 as stated fails: a sell quantity of -5 is at most 0, yet the handler
    takes the result exit and shows a P&L; the sell quantity has been
    overwritten with the buy quantity before the test. *)
Lemma negative_sell_quantity_not_refused :
  (sellQty form_negative_sell_quantity <= lit 0)%js = true
  /\ fst (calculateProfitLoss (blank form_negative_sell_quantity)) = ExitShown
  /\ sellQty (form (snd (calculateProfitLoss (blank form_negative_sell_quantity))))
     = lit 10
  /\ finalPL_hidden
       (panels (snd (calculateProfitLoss (blank form_negative_sell_quantity))))
     = false
  /\ gross_pl (figures (snd (calculateProfitLoss (blank form_negative_sell_quantity))))
     = Localized (lit 100).
Proof. vm_compute. repeat split. Qed.

(** Nor is a number that is not finite refused: with an infinite buy price
    the handler takes the result exit and shows the figures (as N/A). *)
Lemma infinite_price_not_refused :
  isFinite (buyPrice form_infinite_price) = false
  /\ fst (calculateProfitLoss (blank form_infinite_price)) = ExitShown
  /\ gross_pl (figures (snd (calculateProfitLoss (blank form_infinite_price))))
     = Str "N/A"
  /\ finalPL_hidden (panels (snd (calculateProfitLoss (blank form_infinite_price))))
     = false.
Proof. vm_compute. repeat split. Qed.

(** Line 132 tests [isNaN] on the buy quantity and the buy price only; a
    sell price that is NaN passes the test. *)
Lemma nan_sell_price_not_refused :
  fst (calculateProfitLoss (blank form_nan_sell_price)) = ExitShown
  /\ gross_pl (figures (snd (calculateProfitLoss (blank form_nan_sell_price))))
     = Str "N/A".
Proof. vm_compute. repeat split. Qed.

(** Every positive buy quantity, buy price and sell price, infinite ones
    included, reaches the result exit. *)
Lemma positive_inputs_shown (pg : Page) :
  (buyQty (form pg) > lit 0)%js = true -> (buyPrice (form pg) > lit 0)%js = true ->
  (sellPrice (form pg) > lit 0)%js = true ->
  calculateProfitLoss pg = (ExitShown, shown pg (pnlLocals (mirrored (form pg)))).
Proof.
  intros Hq Hp Hs. apply valid_shown.
  unfold invalid, mirrored, mkForm; cbn [buyQty buyPrice sellQty sellPrice].
  now rewrite !gt_zero_not_le, !gt_zero_not_nan.
Qed.

(** C8, as the code has it.  The test of lines 140-146, reached with valid
    inputs whose quantities differ, takes the mismatch exit with a message
    of its own, hides the P&L summary and the break-even section and writes
    no figure.  From calculateProfitLoss the same inputs never reach it:
    the sell quantity has been overwritten, and the result is shown for the
    buy quantity on both legs. *)
Theorem mismatch_signalled_only_without_mirroring (pg : Page) :
  invalid (form pg) = false ->
  strict_ne (buyQty (form pg)) (sellQty (form pg)) = true ->
  validateAndShow pg = (ExitMismatch, refused pg msgMismatch false)
  /\ msgMismatch <> msgInvalid
  /\ figures (snd (validateAndShow pg)) = figures pg
  /\ calculateProfitLoss pg
     = (ExitShown, shown pg (pnlLocals (mirrored (form pg)))).
Proof.
  intros Hv Hne.
  assert (E : validateAndShow pg = (ExitMismatch, refused pg msgMismatch false)).
  { unfold validateAndShow. rewrite Hv, Hne. unfold refused.
    destruct pg as [f p g]; reflexivity. }
  rewrite E. repeat split; [discriminate|].
  apply valid_shown.
  destruct (invalid_false _ Hv) as (H1 & H2 & _ & H4 & H5 & H6).
  unfold invalid, mirrored, mkForm; cbn [buyQty buyPrice sellQty sellPrice].
  now rewrite H1, H2, H4, H5, H6.
Qed.

Lemma mismatch_signalled_only_without_mirroring_witness :
  fst (validateAndShow (blank form_10_against_20)) = ExitMismatch
  /\ fst (calculateProfitLoss (blank form_10_against_20)) = ExitShown.
Proof.
  destruct (mismatch_signalled_only_without_mirroring
              (blank form_10_against_20) eq_refl eq_refl) as (H1 & _ & _ & H2).
  split; [now rewrite H1|now rewrite H2].
Defined.

(** C8 as stated fails: with buy quantity 10 and sell quantity 20 the
    handler signals no mismatch and shows a P&L. *)
Lemma differing_quantities_not_signalled :
  strict_ne (buyQty form_10_against_20) (sellQty form_10_against_20) = true
  /\ fst (calculateProfitLoss (blank form_10_against_20)) = ExitShown
  /\ finalPL_hidden (panels (snd (calculateProfitLoss (blank form_10_against_20))))
     = false
  /\ gross_pl (figures (snd (calculateProfitLoss (blank form_10_against_20))))
     = Localized (lit 100).
Proof. vm_compute. repeat split. Qed.

(** ** Rounding to nearest in binary64

    The operations of the Standard Library round through [shr], one bit at
    a time.  This part relates them to integer division and then to the
    rational value of the result, for results in the normal range. *)

Module Rounding.

Lemma fexp_eq e : fexp prec emax e = Z.max (e - 53) (-1074).
Proof. reflexivity. Qed.

Lemma digits2_pos_bounds m :
  2 ^ (Z.pos (digits2_pos m) - 1) <= Z.pos m < 2 ^ Z.pos (digits2_pos m).
Proof.
  induction m as [p IH|p IH|]; cbn [digits2_pos].
  - rewrite Pos2Z.inj_succ. change (Z.pos p~1) with (2 * Z.pos p + 1).
    replace (Z.succ (Z.pos (digits2_pos p)) - 1) with (Z.succ (Z.pos (digits2_pos p) - 1)) by lia.
    rewrite !Z.pow_succ_r by lia.
    generalize dependent (2 ^ (Z.pos (digits2_pos p) - 1)).
    generalize (2 ^ Z.pos (digits2_pos p)). lia.
  - rewrite Pos2Z.inj_succ. change (Z.pos p~0) with (2 * Z.pos p).
    replace (Z.succ (Z.pos (digits2_pos p)) - 1) with (Z.succ (Z.pos (digits2_pos p) - 1)) by lia.
    rewrite !Z.pow_succ_r by lia.
    generalize dependent (2 ^ (Z.pos (digits2_pos p) - 1)).
    generalize (2 ^ Z.pos (digits2_pos p)). lia.
  - simpl. lia.
Qed.

Lemma digits2_pos_unique m d :
  2 ^ (d - 1) <= Z.pos m < 2 ^ d -> Z.pos (digits2_pos m) = d.
Proof.
  intros [H1 H2]. pose proof (digits2_pos_bounds m) as [H3 H4].
  set (d' := Z.pos (digits2_pos m)) in *.
  assert (0 < d') by (subst d'; lia).
  assert (0 < d).
  { destruct (Z.ltb_spec 0 d); auto.
    assert (2 ^ d <= 2 ^ 0) by (destruct (Z.eq_dec d 0) as [->|]; [lia|rewrite Z.pow_neg_r; simpl; lia]).
    simpl in *. lia. }
  destruct (Z.lt_trichotomy d d') as [L|[E|L]]; auto.
  - assert (2 ^ d <= 2 ^ (d' - 1)) by (apply Z.pow_le_mono_r; lia). lia.
  - assert (2 ^ d' <= 2 ^ (d - 1)) by (apply Z.pow_le_mono_r; lia). lia.
Qed.

Lemma represents_exact m : 0 <= m -> represents m 1 (shr_record_of_loc m loc_Exact).
Proof.
  intros H. unfold represents; cbn [shr_record_of_loc shr_m shr_r shr_s].
  rewrite Z.div_1_r, Z.mod_1_r. repeat split; auto; lia.
Qed.

Lemma shr_1_represents a b mrs :
  represents a b mrs -> represents a (2 * b) (shr_1 mrs).
Proof.
  destruct mrs as [m r s]. unfold represents; cbn [shr_m shr_r shr_s].
  intros (Hb & Ha & Hm & Hr & Hs).
  pose proof (Z.div_mod a b ltac:(lia)) as E.
  pose proof (Z.mod_pos_bound a b Hb) as B.
  rewrite <- Hm in E. set (rho := a mod b) in *.
  assert (Hor : (r || s)%bool = negb (rho =? 0)).
  { rewrite Hr, Hs.
    destruct (Z.leb_spec b (2 * rho)), (Z.eqb_spec rho 0), (Z.eqb_spec (2 * rho) b);
      simpl; auto; lia. }
  assert (Even : forall p, m = 2 * p ->
            a / (2 * b) = p /\ a mod (2 * b) = rho).
  { intros p Hp.
    assert (a = (2 * b) * p + rho) by (rewrite E, Hp; ring).
    split; symmetry;
      [apply (Z.div_unique_pos a (2*b) p rho)
      |apply (Z.mod_unique_pos a (2*b) p rho)]; lia. }
  assert (Odd : forall p, m = 2 * p + 1 ->
            a / (2 * b) = p /\ a mod (2 * b) = b + rho).
  { intros p Hp.
    assert (a = (2 * b) * p + (b + rho)) by (rewrite E, Hp; ring).
    split; symmetry;
      [apply (Z.div_unique_pos a (2*b) p (b+rho))
      |apply (Z.mod_unique_pos a (2*b) p (b+rho))]; lia. }
  assert (Hm0 : 0 <= m) by (rewrite Hm; apply Z.div_pos; lia).
  assert (HE : forall p, m = 2 * p ->
            represents a (2 * b) (Build_shr_record p false (r || s))).
  { intros p Hp. destruct (Even p Hp) as [E1 E2].
    unfold represents; cbn [shr_m shr_r shr_s]. rewrite E1, E2, Hor.
    repeat split; lia. }
  assert (HO : forall p, m = 2 * p + 1 ->
            represents a (2 * b) (Build_shr_record p true (r || s))).
  { intros p Hp. destruct (Odd p Hp) as [E1 E2].
    unfold represents; cbn [shr_m shr_r shr_s]. rewrite E1, E2, Hor.
    repeat split; lia. }
  destruct m as [|[p|p|]|p]; try lia; cbn [shr_1].
  - now apply HE.
  - apply HO. lia.
  - apply HE. lia.
  - now apply HO.
Qed.

Lemma iter_shr_1_represents n : forall a b mrs,
  represents a b mrs -> represents a (b * 2 ^ Z.pos n) (iter_pos shr_1 n mrs).
Proof.
  induction n as [n IH|n IH|]; intros a b mrs H; cbn [iter_pos].
  - apply shr_1_represents in H. apply IH in H. apply IH in H.
    replace (b * 2 ^ Z.pos n~1) with (2 * b * 2 ^ Z.pos n * 2 ^ Z.pos n); auto.
    change (Z.pos n~1) with (2 * Z.pos n + 1).
    replace (2 * Z.pos n + 1) with (Z.pos n + Z.pos n + 1) by lia.
    rewrite !Z.pow_add_r by lia. ring.
  - apply IH in H. apply IH in H.
    replace (b * 2 ^ Z.pos n~0) with (b * 2 ^ Z.pos n * 2 ^ Z.pos n); auto.
    change (Z.pos n~0) with (2 * Z.pos n).
    replace (2 * Z.pos n) with (Z.pos n + Z.pos n) by lia.
    rewrite !Z.pow_add_r by lia. ring.
  - apply shr_1_represents in H. now replace (b * 2 ^ 1) with (2 * b) by ring.
Qed.

(** Shifting by [n >= 0] places. *)
Lemma shr_represents a b mrs e n :
  0 <= n -> represents a b mrs ->
  represents a (b * 2 ^ n) (fst (shr mrs e n)) /\ snd (shr mrs e n) = e + n.
Proof.
  intros Hn H. destruct n as [|p|p]; try lia; simpl.
  - rewrite Z.mul_1_r. split; auto; lia.
  - split; auto. now apply iter_shr_1_represents.
Qed.

(** Rounding to nearest: the chosen integer is within half a unit. *)
Lemma round_nearest_even_represents a b mrs :
  represents a b mrs ->
  let N := round_nearest_even (shr_m mrs) (loc_of_shr_record mrs) in
  a / b <= N <= a / b + 1 /\ 2 * Z.abs (N * b - a) <= b.
Proof.
  destruct mrs as [m r s]. unfold represents; cbn [shr_m shr_r shr_s].
  intros (Hb & Ha & Hm & Hr & Hs).
  pose proof (Z.div_mod a b ltac:(lia)) as E.
  pose proof (Z.mod_pos_bound a b Hb) as B.
  rewrite <- Hm in *. set (rho := a mod b) in *.
  destruct r, s; cbn [loc_of_shr_record round_nearest_even];
    destruct (Z.leb_spec b (2 * rho)); try discriminate;
    destruct (Z.eqb_spec rho 0); try discriminate;
    destruct (Z.eqb_spec (2 * rho) b); try discriminate;
    try destruct (Z.even m); split; try lia.
Qed.

Lemma shr_fexp_canonical N e' :
  2 ^ 52 <= N < 2 ^ 53 -> -1074 <= e' ->
  shr_fexp prec emax N e' loc_Exact = (Build_shr_record N false false, e').
Proof.
  intros HN He. unfold shr_fexp.
  destruct N as [|q|q]; try (simpl in HN; lia).
  cbn [Zdigits2]. rewrite (digits2_pos_unique q 53) by exact HN.
  rewrite fexp_eq.
  replace (Z.max (53 + e' - 53) (-1074) - e') with 0 by lia.
  reflexivity.
Qed.

Lemma shr_fexp_carry e' :
  -1074 <= e' ->
  shr_fexp prec emax (2 ^ 53) e' loc_Exact
  = (Build_shr_record (2 ^ 52) false false, e' + 1).
Proof.
  intros He. unfold shr_fexp.
  change (Zdigits2 (2 ^ 53)) with 54.
  rewrite fexp_eq.
  replace (Z.max (54 + e' - 53) (-1074) - e') with 1 by lia.
  reflexivity.
Qed.

Lemma Zdigits2_bounds m :
  0 < m -> 2 ^ (Zdigits2 m - 1) <= m < 2 ^ Zdigits2 m.
Proof.
  destruct m as [|p|p]; try lia. intros _. apply digits2_pos_bounds.
Qed.

(** Rounding in the normal range: at least 53 digits come in, the exponent
    of the result stays above the smallest one. *)
Theorem binary_round_aux_normal s m e l a b :
  represents a b (shr_record_of_loc m l) ->
  53 <= Zdigits2 m -> -1074 <= Zdigits2 m + e - 53 ->
  exists m'' e'',
    binary_round_aux prec emax s m e l
    = (if e'' <=? 971 then S754_finite s m'' e'' else S754_infinity s)
    /\ 2 ^ 52 <= Z.pos m'' < 2 ^ 53
    /\ Zdigits2 m + e - 53 <= e'' <= Zdigits2 m + e - 52
    /\ 2 ^ 53 * Z.abs (Z.pos m'' * 2 ^ (e'' - e) * b - a) <= a.
Proof.
  intros Hrep Hd He. set (d := Zdigits2 m) in *.
  assert (Hmab : m = a / b).
  { destruct Hrep as (_ & _ & Hq & _). now rewrite shr_record_of_loc_m in Hq. }
  assert (Hb : 0 < b) by apply Hrep.
  assert (Ha : 0 <= a) by apply Hrep.
  assert (Hmpos : 0 < m).
  { assert (0 <= m) by (rewrite Hmab; apply Z.div_pos; lia).
    destruct m; simpl in *; lia. }
  pose proof (Zdigits2_bounds m Hmpos) as Hm. fold d in Hm.
  unfold binary_round_aux.
  assert (Hn : fexp prec emax (d + e) - e = d - 53)
    by (rewrite fexp_eq; lia).
  unfold shr_fexp at 1. fold d. rewrite Hn.
  destruct (shr_represents a b _ e (d - 53) ltac:(lia) Hrep) as [H1 H2].
  destruct (shr (shr_record_of_loc m l) e (d - 53)) as [mrs' e'] eqn:E.
  cbn [fst snd] in H1, H2. subst e'.
  set (n := d - 53) in *.
  assert (P2n : 0 < 2 ^ n) by (apply Z.pow_pos_nonneg; lia).
  set (B := b * 2 ^ n) in *.
  assert (HB : 0 < B) by (subst B; lia).
  pose proof (round_nearest_even_represents a B mrs' H1) as [HN1 HN2].
  set (N := round_nearest_even (shr_m mrs') (loc_of_shr_record mrs')) in *.
  (* the truncated mantissa has exactly 53 digits *)
  assert (Hq : a / B = m / 2 ^ n).
  { subst B. rewrite <- Z.div_div by lia. now rewrite Hmab. }
  assert (Hpow : 2 ^ (d - 1) = 2 ^ 52 * 2 ^ n /\ 2 ^ d = 2 ^ 53 * 2 ^ n).
  { split; rewrite <- Z.pow_add_r by lia; f_equal; lia. }
  destruct Hpow as [Hp1 Hp2].
  assert (Hq52 : 2 ^ 52 <= a / B < 2 ^ 53).
  { rewrite Hq. split.
    - apply Z.div_le_lower_bound; lia.
    - apply Z.div_lt_upper_bound; lia. }
  assert (HaB : B * 2 ^ 52 <= a).
  { pose proof (Z.mul_div_le a B HB).
    assert (B * 2 ^ 52 <= B * (a / B)) by (apply Z.mul_le_mono_nonneg_l; lia).
    lia. }
  assert (Herr : 2 ^ 53 * Z.abs (N * B - a) <= a).
  { change (2 ^ 53) with (2 * 2 ^ 52). change (2 ^ 52) with 4503599627370496 in *. lia. }
  destruct (Z.eq_dec N (2 ^ 53)) as [HN|HN].
  - rewrite HN, shr_fexp_carry by lia. cbn [shr_m].
    exists (4503599627370496%positive), (e + n + 1).
    change (2 ^ 52) with 4503599627370496.
    replace (emax - prec) with 971 by reflexivity.
    split; [reflexivity|]. split; [simpl; lia|]. split; [lia|].
    replace (e + n + 1 - e) with (n + 1) by lia.
    rewrite Z.pow_add_r by lia. change (2 ^ 1) with 2.
    replace (4503599627370496 * (2 ^ n * 2) * b - a) with (N * B - a); [exact Herr|].
    rewrite HN. subst B. change (2 ^ 53) with 9007199254740992. ring.
  - assert (HNr : 2 ^ 52 <= N < 2 ^ 53) by lia.
    rewrite shr_fexp_canonical by lia. cbn [shr_m].
    destruct N as [|q|q] eqn:EN; try (simpl in HNr; lia).
    exists q, (e + n).
    replace (emax - prec) with 971 by reflexivity.
    split; [reflexivity|]. split; [exact HNr|]. split; [lia|].
    replace (e + n - e) with n by lia.
    replace (Z.pos q * 2 ^ n * b - a) with (Z.pos q * B - a); [exact Herr|].
    subst B. ring.
Qed.

Lemma pow2_pos e : (0 < 2 ^ e)%Q.
Proof. now apply Qpower_0_lt. Qed.

Lemma pow2_add a b : (2 ^ (a + b) == 2 ^ a * 2 ^ b)%Q.
Proof. now apply Qpower_plus. Qed.

Lemma pow2_Z k : 0 <= k -> (inject_Z (2 ^ k) == 2 ^ k)%Q.
Proof. intros H. now rewrite Zpower_Qpower. Qed.

Lemma normal_pos_inv x :
  normal_pos x = true ->
  exists m e, x = S754_finite false m e /\ 2 ^ 52 <= Z.pos m < 2 ^ 53
              /\ -1074 <= e <= 971.
Proof.
  destruct x as [| | |[] m e]; try discriminate. unfold normal_pos.
  intros H. apply andb_true_iff in H as [H H3]. apply andb_true_iff in H as [H1 H2].
  exists m, e. split; auto.
  apply Z.eqb_eq in H1. pose proof (digits2_pos_bounds m) as B. rewrite H1 in B.
  split; [exact B|lia].
Qed.

Lemma normal_pos_intro m e :
  2 ^ 52 <= Z.pos m < 2 ^ 53 -> -1074 <= e <= 971 ->
  normal_pos (S754_finite false m e) = true.
Proof.
  intros Hm He. unfold normal_pos. rewrite (digits2_pos_unique m 53 Hm).
  apply andb_true_iff; split; [apply andb_true_iff; split|]; lia.
Qed.

Lemma SF2Q_pos x : normal_pos x = true -> (0 < SF2Q x)%Q.
Proof.
  intros H. destruct (normal_pos_inv x H) as (m & e & -> & Hm & He). simpl.
  rewrite Qmult_1_l. apply Qmult_lt_0_compat; [reflexivity|apply pow2_pos].
Qed.

(** From the integer error bound to the relative error of the value. *)
Lemma scaled_error (A a b : Z) (c : Q) :
  0 < b -> (0 < c)%Q -> 2 ^ 53 * Z.abs (A * b - a) <= a ->
  (Qabs (inject_Z A * c - inject_Z a / inject_Z b * c)
   <= u * (inject_Z a / inject_Z b * c))%Q.
Proof.
  intros Hb Hc H.
  assert (Hb' : (0 < inject_Z b)%Q)
    by (change 0%Q with (inject_Z 0); now rewrite <- Zlt_Qlt).
  set (k := (c / inject_Z b)%Q).
  assert (Hk : (0 < k)%Q).
  { unfold k. apply Qlt_shift_div_l; auto. }
  assert (E1 : (inject_Z A * c - inject_Z a / inject_Z b * c
                == inject_Z (A * b - a) * k)%Q).
  { unfold k. unfold Z.sub. rewrite inject_Z_plus, inject_Z_mult, inject_Z_opp.
    field. intros E. rewrite E in Hb'. discriminate. }
  assert (E2 : (u * (inject_Z a / inject_Z b * c) == u * inject_Z a * k)%Q).
  { unfold k. field. intros E. rewrite E in Hb'. discriminate. }
  rewrite E1, E2, Qabs_Qmult, (Qabs_pos k) by (now apply Qlt_le_weak).
  apply Qmult_le_compat_r; [|now apply Qlt_le_weak].
  assert (E3 : (Qabs (inject_Z (A * b - a)) == inject_Z (Z.abs (A * b - a)))%Q).
  { unfold Qabs, inject_Z. reflexivity. }
  rewrite E3. unfold u.
  assert (H' : (inject_Z (2 ^ 53) * inject_Z (Z.abs (A * b - a)) <= inject_Z a)%Q)
    by (rewrite <- inject_Z_mult, <- Zle_Qle; exact H).
  change (inject_Z (2 ^ 53)) with (9007199254740992%Q) in H'.
  change (1 # 2 ^ 53)%Q with (1 # 9007199254740992)%Q.
  lra.
Qed.

Lemma Zdigits2_range m lo hi :
  0 <= lo -> 2 ^ lo <= m < 2 ^ hi -> lo + 1 <= Zdigits2 m <= hi.
Proof.
  intros Hlo [H1 H2].
  assert (Hm : 0 < m) by (pose proof (Z.pow_pos_nonneg 2 lo); lia).
  pose proof (Zdigits2_bounds m Hm) as [B1 B2].
  assert (0 < Zdigits2 m) by (destruct m; simpl; lia).
  split.
  - destruct (Z.ltb_spec (Zdigits2 m) (lo + 1)); auto.
    assert (2 ^ Zdigits2 m <= 2 ^ lo) by (apply Z.pow_le_mono_r; lia). lia.
  - destruct (Z.ltb_spec hi (Zdigits2 m)); auto.
    assert (0 <= hi).
    { destruct (Z.ltb_spec hi 0); auto. rewrite Z.pow_neg_r in H2 by auto. lia. }
    assert (2 ^ hi <= 2 ^ (Zdigits2 m - 1)) by (apply Z.pow_le_mono_r; lia). lia.
Qed.

Lemma SF2Q_finite_pos m e k :
  0 <= k ->
  (SF2Q (S754_finite false m (e + k)) == inject_Z (Z.pos m * 2 ^ k) * 2 ^ e)%Q.
Proof.
  intros Hk. cbn [SF2Q]. rewrite inject_Z_mult, pow2_Z by exact Hk.
  rewrite (Z.add_comm e k), pow2_add. ring.
Qed.

(** Multiplication of two positive normal doubles whose product stays in the
    normal range: the result is the exact product up to a relative [u]. *)
Theorem mul_normal x y :
  normal_pos x = true -> normal_pos y = true ->
  -1022 <= exponent x + exponent y <= 1021 ->
  normal_pos (SFmul prec emax x y) = true
  /\ exponent x + exponent y <= exponent (SFmul prec emax x y)
     <= exponent x + exponent y + 2
  /\ (Qabs (SF2Q (SFmul prec emax x y) - SF2Q x * SF2Q y)
      <= u * (SF2Q x * SF2Q y))%Q.
Proof.
  intros Hx Hy.
  destruct (normal_pos_inv x Hx) as (mx & ex & -> & Hmx & Hex).
  destruct (normal_pos_inv y Hy) as (my & ey & -> & Hmy & Hey).
  cbn [exponent]. intros HE.
  cbn [SFmul xorb].
  set (P := Z.pos (mx * my)).
  assert (HP : 2 ^ 104 <= P < 2 ^ 106).
  { subst P. rewrite Pos2Z.inj_mul.
    change (2 ^ 104) with (2 ^ 52 * 2 ^ 52). change (2 ^ 106) with (2 ^ 53 * 2 ^ 53).
    split; [apply Z.mul_le_mono_nonneg|apply Z.mul_lt_mono_nonneg]; try lia;
      apply Z.pow_nonneg; lia. }
  pose proof (Zdigits2_range P 104 106 ltac:(lia) HP) as Hd.
  destruct (binary_round_aux_normal false P (ex + ey) loc_Exact P 1) as
    (m'' & e'' & E & Hm'' & He'' & Herr).
  { apply represents_exact. lia. }
  { lia. }
  { lia. }
  rewrite E.
  replace (e'' <=? 971) with true by (symmetry; apply Z.leb_le; lia).
  split; [apply normal_pos_intro; [exact Hm''|lia]|].
  split; [cbn [exponent]; lia|].
  assert (Hk : 0 <= e'' - (ex + ey)) by lia.
  replace e'' with ((ex + ey) + (e'' - (ex + ey))) at 1 by lia.
  rewrite (SF2Q_finite_pos m'' (ex + ey) _ Hk).
  assert (Et : (SF2Q (S754_finite false mx ex) * SF2Q (S754_finite false my ey)
                == inject_Z P / inject_Z 1 * 2 ^ (ex + ey))%Q).
  { cbn [SF2Q]. subst P. rewrite Pos2Z.inj_mul, inject_Z_mult, pow2_add.
    change (inject_Z 1) with 1%Q. field. }
  rewrite Et.
  apply scaled_error; [lia|apply pow2_pos|].
  exact Herr.
Qed.

(** Comparison of positive normal doubles is comparison of their values. *)
Lemma SFltb_of_Qlt x y :
  normal_pos x = true -> normal_pos y = true ->
  (SF2Q x < SF2Q y)%Q -> SFltb x y = true.
Proof.
  intros Hx Hy.
  destruct (normal_pos_inv x Hx) as (mx & ex & -> & Hmx & Hex).
  destruct (normal_pos_inv y Hy) as (my & ey & -> & Hmy & Hey).
  cbn [SF2Q]. rewrite !Qmult_1_l. intros H.
  unfold SFltb, SFcompare.
  destruct (Z.compare_spec ex ey) as [E|L|G].
  - subst ey.
    assert (Hlt : (inject_Z (Z.pos mx) < inject_Z (Z.pos my))%Q).
    { pose proof (pow2_pos ex) as P.
      apply Qmult_lt_r with (z := (2 ^ ex)%Q); assumption. }
    rewrite <- Zlt_Qlt in Hlt.
    assert (C : Pos.compare_cont Eq mx my = Lt).
    { change (Pos.compare_cont Eq mx my) with (Pos.compare mx my).
      apply Pos.compare_lt_iff. lia. }
    now rewrite C.
  - reflexivity.
  - exfalso.
    assert (Hp : (2 * 2 ^ ey <= 2 ^ ex)%Q).
    { change (2 * 2 ^ ey)%Q with (2 ^ 1 * 2 ^ ey)%Q. rewrite <- pow2_add.
      apply Qpower_le_compat_l; [lia|discriminate]. }
    assert (H1 : (inject_Z (2 ^ 52) * 2 ^ ex <= inject_Z (Z.pos mx) * 2 ^ ex)%Q).
    { apply Qmult_le_compat_r; [rewrite <- Zle_Qle; lia|apply Qlt_le_weak, pow2_pos]. }
    assert (H2 : (inject_Z (Z.pos my) * 2 ^ ey < inject_Z (2 ^ 53) * 2 ^ ey)%Q).
    { apply Qmult_lt_compat_r; [apply pow2_pos|rewrite <- Zlt_Qlt; lia]. }
    change (inject_Z (2 ^ 52)) with 4503599627370496%Q in H1.
    change (inject_Z (2 ^ 53)) with 9007199254740992%Q in H2.
    pose proof (pow2_pos ey). lra.
Qed.

(** Multiplying one number by two well-separated constants keeps them apart. *)
Lemma mul_const_strict tv c1 c2 :
  normal_pos tv = true -> normal_pos c1 = true -> normal_pos c2 = true ->
  -1022 <= exponent tv + exponent c1 <= 1021 ->
  -1022 <= exponent tv + exponent c2 <= 1021 ->
  ((1 + u) * SF2Q c2 < (1 - u) * SF2Q c1)%Q ->
  SFltb (SFmul prec emax tv c2) (SFmul prec emax tv c1) = true.
Proof.
  intros Ht H1 H2 E1 E2 Hsep.
  destruct (mul_normal tv c1 Ht H1 E1) as (N1 & _ & B1).
  destruct (mul_normal tv c2 Ht H2 E2) as (N2 & _ & B2).
  apply SFltb_of_Qlt; auto.
  pose proof (SF2Q_pos tv Ht) as Pt.
  apply Qabs_diff_Qle_condition in B1, B2.
  assert (Hs : (SF2Q tv * ((1 + u) * SF2Q c2) < SF2Q tv * ((1 - u) * SF2Q c1))%Q).
  { rewrite !(Qmult_comm (SF2Q tv)). apply Qmult_lt_compat_r; assumption. }
  set (a := SF2Q (SFmul prec emax tv c1)) in *.
  set (b := SF2Q (SFmul prec emax tv c2)) in *.
  destruct B1 as [B1 B1'], B2 as [B2 B2'].
  assert (b <= SF2Q tv * ((1 + u) * SF2Q c2))%Q.
  { setoid_replace (SF2Q tv * ((1 + u) * SF2Q c2))%Q
      with (SF2Q tv * SF2Q c2 + u * (SF2Q tv * SF2Q c2))%Q by ring. lra. }
  assert (SF2Q tv * ((1 - u) * SF2Q c1) <= a)%Q.
  { setoid_replace (SF2Q tv * ((1 - u) * SF2Q c1))%Q
      with (SF2Q tv * SF2Q c1 - u * (SF2Q tv * SF2Q c1))%Q by ring. lra. }
  lra.
Qed.

Lemma div_eucl_div_mod a b : Z.div_eucl a b = (a / b, a mod b).
Proof. unfold Z.div, Z.modulo. now destruct (Z.div_eucl a b). Qed.

Lemma new_location_represents b r q :
  0 < b -> 0 <= r < b -> 0 <= q ->
  represents (b * q + r) b (shr_record_of_loc q (new_location b r)).
Proof.
  intros Hb Hr Hq.
  assert (E1 : (b * q + r) / b = q)
    by (symmetry; apply (Z.div_unique_pos _ b q r); lia).
  assert (E2 : (b * q + r) mod b = r)
    by (symmetry; apply (Z.mod_unique_pos _ b q r); lia).
  unfold represents. rewrite E1, E2.
  unfold new_location, new_location_even, new_location_odd.
  destruct (Z.even b) eqn:Ev.
  - destruct (Z.eqb_spec r 0) as [->|Hr0]; cbn [shr_record_of_loc shr_m shr_r shr_s].
    + repeat split; lia.
    + destruct (Z.compare_spec (2 * r) b); cbn [shr_record_of_loc shr_m shr_r shr_s];
        repeat split; lia.
  - assert (Hodd : 2 * r <> b).
    { intros <-. rewrite Z.even_mul in Ev. discriminate. }
    destruct (Z.eqb_spec r 0) as [->|Hr0]; cbn [shr_record_of_loc shr_m shr_r shr_s].
    + repeat split; lia.
    + destruct (Z.compare_spec (2 * r + 1) b); cbn [shr_record_of_loc shr_m shr_r shr_s];
        repeat split; lia.
Qed.

(** Division of two positive normal doubles whose quotient stays in the
    normal range: the result is the exact quotient up to a relative [u]. *)
Theorem div_normal x y :
  normal_pos x = true -> normal_pos y = true ->
  -1021 <= exponent x - exponent y <= 1022 ->
  normal_pos (SFdiv prec emax x y) = true
  /\ exponent x - exponent y - 1 <= exponent (SFdiv prec emax x y)
     <= exponent x - exponent y + 1
  /\ (Qabs (SF2Q (SFdiv prec emax x y) - SF2Q x / SF2Q y)
      <= u * (SF2Q x / SF2Q y))%Q.
Proof.
  intros Hx Hy.
  destruct (normal_pos_inv x Hx) as (mx & ex & -> & Hmx & Hex).
  destruct (normal_pos_inv y Hy) as (my & ey & -> & Hmy & Hey).
  cbn [exponent]. intros HE.
  cbn [SFdiv xorb]. unfold SFdiv_core_binary.
  cbn [Zdigits2].
  rewrite (digits2_pos_unique mx 53 Hmx), (digits2_pos_unique my 53 Hmy).
  rewrite fexp_eq.
  set (e' := ex - ey - 53).
  replace (Z.min (Z.max (53 + ex - (53 + ey) - 53) (-1074)) (ex - ey)) with e'
    by (subst e'; lia).
  replace (ex - ey - e') with 53 by (subst e'; lia).
  cbv iota. rewrite Z.shiftl_mul_pow2 by lia.
  set (a := Z.pos mx * 2 ^ 53).
  rewrite div_eucl_div_mod.
  set (q := a / Z.pos my). set (r := a mod Z.pos my).
  assert (Ha : 2 ^ 105 <= a < 2 ^ 106).
  { subst a. change (2 ^ 105) with (2 ^ 52 * 2 ^ 53).
    change (2 ^ 106) with (2 ^ 53 * 2 ^ 53). lia. }
  assert (Hq : 2 ^ 52 <= q < 2 ^ 54).
  { subst q. split.
    - apply Z.div_le_lower_bound; [lia|].
      change (2 ^ 105) with (2 ^ 53 * 2 ^ 52) in Ha.
      assert (Z.pos my * 2 ^ 52 <= 2 ^ 53 * 2 ^ 52) by lia. lia.
    - apply Z.div_lt_upper_bound; [lia|].
      change (2 ^ 106) with (2 ^ 52 * 2 ^ 54) in Ha.
      assert (2 ^ 52 * 2 ^ 54 <= Z.pos my * 2 ^ 54) by lia. lia. }
  pose proof (Zdigits2_range q 52 54 ltac:(lia) Hq) as Hd.
  assert (Hrep : represents a (Z.pos my) (shr_record_of_loc q (new_location (Z.pos my) r))).
  { replace a with (Z.pos my * q + r) at 1
      by (subst q r; symmetry; apply Z.div_mod; lia).
    apply new_location_represents; try lia.
    subst r. apply Z.mod_pos_bound. lia. }
  destruct (binary_round_aux_normal false q e' _ a (Z.pos my) Hrep) as
    (m'' & e'' & E & Hm'' & He'' & Herr); [lia|subst e'; lia|].
  rewrite E.
  replace (e'' <=? 971) with true by (symmetry; apply Z.leb_le; subst e'; lia).
  split; [apply normal_pos_intro; [exact Hm''|subst e'; lia]|].
  split; [cbn [exponent]; subst e'; lia|].
  assert (Hk : 0 <= e'' - e') by lia.
  replace e'' with (e' + (e'' - e')) at 1 by lia.
  rewrite (SF2Q_finite_pos m'' e' _ Hk).
  assert (Et : (SF2Q (S754_finite false mx ex) / SF2Q (S754_finite false my ey)
                == inject_Z a / inject_Z (Z.pos my) * 2 ^ e')%Q).
  { cbn [SF2Q]. subst a.
    replace ex with (e' + 53 + ey) by (subst e'; lia).
    rewrite inject_Z_mult, !pow2_add.
    change (inject_Z (2 ^ 53)) with (2 ^ 53)%Q.
    pose proof (pow2_pos ey) as P1. pose proof (pow2_pos e') as P2.
    assert (P3 : (0 < inject_Z (Z.pos my))%Q) by reflexivity.
    field. split; intros Z0; rewrite Z0 in *; discriminate. }
  rewrite Et.
  apply scaled_error; [lia|apply pow2_pos|exact Herr].
Qed.

Lemma iter_xO_pow m d : Z.pos (Pos.iter xO m d) = Z.pos m * 2 ^ Z.pos d.
Proof.
  induction d as [|d IH] using Pos.peano_ind.
  - simpl. lia.
  - rewrite Pos.iter_succ, Pos2Z.inj_succ, Z.pow_succ_r by lia.
    change (Z.pos (Pos.iter xO m d)~0) with (2 * Z.pos (Pos.iter xO m d)).
    rewrite IH. ring.
Qed.

Lemma shl_align_fst m e e' :
  e' <= e -> Z.pos (fst (shl_align m e e')) = Z.pos m * 2 ^ (e - e').
Proof.
  intros H. unfold shl_align.
  destruct (e' - e) as [|d|d] eqn:E; try lia; cbn [fst].
  - replace (e - e') with 0 by lia. simpl. lia.
  - rewrite iter_xO_pow. f_equal. f_equal. lia.
Qed.

Lemma shl_align_id m e e' : e <= e' -> shl_align m e e' = (m, e).
Proof.
  intros H. unfold shl_align. destruct (e' - e) as [|d|d] eqn:E; try lia; reflexivity.
Qed.

(** Addition of two positive normal doubles below the overflow threshold:
    the result is the exact sum up to a relative [u]. *)
Theorem add_normal x y :
  normal_pos x = true -> normal_pos y = true ->
  Z.max (exponent x) (exponent y) <= 1021 ->
  normal_pos (SFadd prec emax x y) = true
  /\ Z.max (exponent x) (exponent y) <= exponent (SFadd prec emax x y)
     <= Z.max (exponent x) (exponent y) + 2
  /\ (Qabs (SF2Q (SFadd prec emax x y) - (SF2Q x + SF2Q y))
      <= u * (SF2Q x + SF2Q y))%Q.
Proof.
  intros Hx Hy.
  destruct (normal_pos_inv x Hx) as (mx & ex & -> & Hmx & Hex).
  destruct (normal_pos_inv y Hy) as (my & ey & -> & Hmy & Hey).
  cbn [exponent]. intros HE.
  cbn [SFadd cond_Zopp].
  set (ez := Z.min ex ey).
  pose proof (shl_align_fst mx ex ez ltac:(subst ez; lia)) as Ea.
  pose proof (shl_align_fst my ey ez ltac:(subst ez; lia)) as Eb.
  set (ma := fst (shl_align mx ex ez)) in *.
  set (mb := fst (shl_align my ey ez)) in *.
  change (Z.pos ma + Z.pos mb) with (Z.pos (ma + mb)).
  cbn [binary_normalize]. unfold binary_round.
  set (S := Z.pos (ma + mb)).
  set (M := Z.max ex ey).
  assert (Pa : 0 < 2 ^ (ex - ez)) by (apply Z.pow_pos_nonneg; subst ez; lia).
  assert (Pb : 0 < 2 ^ (ey - ez)) by (apply Z.pow_pos_nonneg; subst ez; lia).
  assert (PM : 2 ^ (ex - ez) <= 2 ^ (M - ez) /\ 2 ^ (ey - ez) <= 2 ^ (M - ez)
               /\ (2 ^ (ex - ez) = 2 ^ (M - ez) \/ 2 ^ (ey - ez) = 2 ^ (M - ez))).
  { subst M ez. split; [|split].
    - apply Z.pow_le_mono_r; lia.
    - apply Z.pow_le_mono_r; lia.
    - destruct (Z.max_spec ex ey) as [[_ ->]|[_ ->]]; auto. }
  assert (HS : 2 ^ (52 + (M - ez)) <= S < 2 ^ (54 + (M - ez))).
  { subst S. rewrite Pos2Z.inj_add, Ea, Eb.
    rewrite !Z.pow_add_r by (subst M ez; lia).
    change (2 ^ 54) with (2 * 2 ^ 53).
    generalize dependent (2 ^ (M - ez)). generalize dependent (2 ^ (ex - ez)).
    generalize dependent (2 ^ (ey - ez)).
    change (2 ^ 52) with 4503599627370496 in *.
    change (2 ^ 53) with 9007199254740992 in *. intros. nia. }
  assert (HMz : 0 <= M - ez) by (subst M ez; lia).
  pose proof (Zdigits2_range S (52 + (M - ez)) (54 + (M - ez)) ltac:(lia) HS) as Hd.
  change (Z.pos (digits2_pos (ma + mb))) with (Zdigits2 S).
  rewrite shl_align_id by (rewrite fexp_eq; subst M ez; lia).
  destruct (binary_round_aux_normal false S ez loc_Exact S 1) as
    (m'' & e'' & E & Hm'' & He'' & Herr).
  { apply represents_exact. subst S. lia. }
  { subst M ez. lia. }
  { subst M ez. lia. }
  fold S. rewrite E.
  replace (e'' <=? 971) with true by (symmetry; apply Z.leb_le; subst M ez; lia).
  split; [apply normal_pos_intro; [exact Hm''|subst M ez; lia]|].
  split; [cbn [exponent]; subst M ez; lia|].
  assert (Hk : 0 <= e'' - ez) by (subst M ez; lia).
  replace e'' with (ez + (e'' - ez)) at 1 by lia.
  rewrite (SF2Q_finite_pos m'' ez _ Hk).
  assert (Et : (SF2Q (S754_finite false mx ex) + SF2Q (S754_finite false my ey)
                == inject_Z S / inject_Z 1 * 2 ^ ez)%Q).
  { cbn [SF2Q]. subst S. rewrite Pos2Z.inj_add, Ea, Eb.
    rewrite inject_Z_plus, !inject_Z_mult, !pow2_Z by (subst ez; lia).
    replace ex with (ez + (ex - ez)) at 1 by lia.
    replace ey with (ez + (ey - ez)) at 1 by lia.
    rewrite !pow2_add. change (inject_Z 1) with 1%Q. field. }
  rewrite Et.
  apply scaled_error; [lia|apply pow2_pos|exact Herr].
Qed.

End Rounding.

Import Rounding.

(** ** The rates of the schedule as doubles *)

Lemma u_value : u = (1 # 9007199254740992)%Q.
Proof. reflexivity. Qed.

Lemma rate_ok_inv c R :
  rate_ok c R = true ->
  normal_pos c = true /\ (0 < R)%Q
  /\ ((1 - u) * R <= SF2Q c <= (1 + u) * R)%Q.
Proof.
  unfold rate_ok. intros H.
  apply andb_true_iff in H as [H H3]. apply andb_true_iff in H as [H1 H2].
  apply Qle_bool_iff in H2. apply negb_true_iff in H3.
  assert (HR : (0 < R)%Q).
  { apply Qnot_le_lt. intros HR. apply Qle_bool_iff in HR. congruence. }
  repeat split; auto; apply Qabs_diff_Qle_condition in H2; lra.
Qed.

(** The literals of the schedule are the doubles nearest to the decimal
    rates, each within the unit roundoff of its rate. *)
Lemma schedule_rates_ok :
  rate_ok (lit 0.0002) (2 # 10000) = true
  /\ rate_ok (lit 0.001) (1 # 1000) = true
  /\ rate_ok (lit 0.00025) (25 # 100000) = true
  /\ rate_ok (lit 0.00002) (2 # 100000) = true
  /\ rate_ok (lit 0.00015) (15 # 100000) = true
  /\ rate_ok (lit 0.00003) (3 # 100000) = true
  /\ rate_ok RATE_BROKERAGE_DELIVERY (704847026178763 # 1000000000000000000) = true
  /\ rate_ok (lit 0.00007) (7 # 100000) = true
  /\ rate_ok TAX_GST (18 # 100) = true
  /\ rate_ok (lit 0.000001) (1 # 1000000) = true
  /\ rate_ok (lit 0.0000183) (183 # 10000000) = true
  /\ rate_ok (lit 0.0000307) (307 # 10000000) = true.
Proof. vm_compute. repeat split. Qed.

(** One multiplication by a rate: the charge is rate x value up to a
    relative error of 2^-51. *)
Lemma mul_rate tv c R :
  normal_pos tv = true -> rate_ok c R = true ->
  -1022 <= exponent tv + exponent c <= 1021 ->
  normal_pos (tv * c)%js = true
  /\ exponent tv + exponent c <= exponent (tv * c)%js
     <= exponent tv + exponent c + 2
  /\ close (1 # 2 ^ 51) (tv * c)%js (R * SF2Q tv).
Proof.
  intros Ht Hc HE.
  destruct (rate_ok_inv c R Hc) as (Nc & HR & Hlo & Hhi).
  destruct (mul_normal tv c Ht Nc HE) as (N & E & B).
  split; [exact N|]. split; [exact E|].
  unfold close. pose proof (SF2Q_pos tv Ht) as Pt.
  fold (mul tv c) in B.
  apply Qabs_diff_Qle_condition in B.
  apply Qabs_diff_Qle_condition.
  assert (L1 : ((1 - u) * R * SF2Q tv <= SF2Q c * SF2Q tv)%Q)
    by (apply Qmult_le_compat_r; [exact Hlo|now apply Qlt_le_weak]).
  assert (L2 : (SF2Q c * SF2Q tv <= (1 + u) * R * SF2Q tv)%Q)
    by (apply Qmult_le_compat_r; [exact Hhi|now apply Qlt_le_weak]).
  assert (PR : (0 < R * SF2Q tv)%Q) by (apply Qmult_lt_0_compat; assumption).
  rewrite u_value in *.
  change (1 # 2 ^ 51)%Q with (1 # 2251799813685248)%Q.
  set (X := (SF2Q tv * SF2Q c)%Q) in *.
  assert (EX : (SF2Q c * SF2Q tv == X)%Q) by (unfold X; ring).
  rewrite EX in L1, L2.
  set (RT := (R * SF2Q tv)%Q) in *.
  assert (E1 : ((1 - (1 # 9007199254740992)) * R * SF2Q tv
                == (1 - (1 # 9007199254740992)) * RT)%Q) by (unfold RT; ring).
  assert (E2 : ((1 + (1 # 9007199254740992)) * R * SF2Q tv
                == (1 + (1 # 9007199254740992)) * RT)%Q) by (unfold RT; ring).
  rewrite E1 in L1. rewrite E2 in L2.
  destruct B as [B1 B2].
  split; lra.
Qed.

Lemma normal_pos_exponent x :
  normal_pos x = true -> -1022 <= exponent x <= 1023.
Proof.
  intros H. destruct (normal_pos_inv x H) as (m & e & -> & _ & He).
  cbn [exponent]. lia.
Qed.

Lemma close_weaken eps eps' x t :
  (eps <= eps')%Q -> (0 <= t)%Q -> close eps x t -> close eps' x t.
Proof.
  unfold close. intros He Ht H.
  apply Qle_trans with (1 := H).
  apply Qmult_le_compat_r; assumption.
Qed.

Lemma close_zero eps t : (t == 0)%Q -> close eps (lit 0) t.
Proof.
  unfold close. intros ->. cbn [SF2Q lit]. rewrite Qmult_0_r. discriminate.
Qed.

(** ** Stamp duty: the three BUY rates keep their order *)

Lemma stampDuty_order tv :
  normal_pos tv = true -> -1000 <= exponent tv ->
  (tv * lit 0.00003 < tv * lit 0.00015)%js = true
  /\ (tv * lit 0.00002 < tv * lit 0.00003)%js = true.
Proof.
  intros Ht He. pose proof (normal_pos_exponent tv Ht) as Hb.
  split; apply mul_const_strict; try exact Ht; try reflexivity;
    try (match goal with |- context [exponent (lit ?f)] =>
           let v := eval vm_compute in (exponent (lit f)) in
           change (exponent (lit f)) with v end; lia);
    apply Qlt_alt; vm_compute; reflexivity.
Qed.

(** ** Brokerage: base, tax and their sum *)

Lemma brokerage_close tv cb Rb :
  normal_pos tv = true -> rate_ok cb Rb = true ->
  -1000 <= exponent tv -> -14 <= exponent cb <= -10 ->
  normal_pos (tv * cb + tv * cb * TAX_GST)%js = true
  /\ close (1 # 2 ^ 50) (tv * cb + tv * cb * TAX_GST)%js
       (Rb * (118 # 100) * SF2Q tv).
Proof.
  intros Ht Hc He Hcb. pose proof (normal_pos_exponent tv Ht) as Hb.
  destruct (rate_ok_inv cb Rb Hc) as (_ & HR & _).
  destruct (mul_rate tv cb Rb Ht Hc ltac:(lia)) as (Nb & Eb & Cb).
  set (base := (tv * cb)%js) in *.
  assert (Hg : rate_ok TAX_GST (18 # 100) = true) by reflexivity.
  assert (Eg0 : exponent TAX_GST = -3) by reflexivity.
  destruct (mul_rate base TAX_GST (18 # 100) Nb Hg ltac:(lia)) as (Ng & Eg & Cg).
  set (gst := (base * TAX_GST)%js) in *.
  destruct (add_normal base gst Nb Ng ltac:(lia)) as (Ns & _ & Cs).
  fold (add base gst) in Ns, Cs.
  split; [exact Ns|].
  pose proof (SF2Q_pos tv Ht) as Pt.
  assert (PR : (0 < Rb * SF2Q tv)%Q) by (apply Qmult_lt_0_compat; assumption).
  unfold close in *.
  apply Qabs_diff_Qle_condition in Cb, Cg, Cs.
  apply Qabs_diff_Qle_condition.
  rewrite u_value in *.
  change (1 # 2 ^ 51)%Q with (1 # 2251799813685248)%Q in *.
  change (1 # 2 ^ 50)%Q with (1 # 1125899906842624)%Q.
  set (RT := (Rb * SF2Q tv)%Q) in *.
  assert (E1 : (Rb * (118 # 100) * SF2Q tv == (118 # 100) * RT)%Q)
    by (unfold RT; ring).
  rewrite E1.
  destruct Cb as [Cb1 Cb2], Cg as [Cg1 Cg2], Cs as [Cs1 Cs2].
  split; lra.
Qed.

(** No floor: below a trade value of 20000 the total brokerage stays under
    MIN_BROKERAGE. *)
Lemma brokerage_below_min tv cb Rb :
  normal_pos tv = true -> rate_ok cb Rb = true ->
  -1000 <= exponent tv -> -14 <= exponent cb <= -10 ->
  (Rb <= 705 # 1000000)%Q -> (SF2Q tv <= 20000)%Q ->
  (tv * cb + tv * cb * TAX_GST < MIN_BROKERAGE)%js = true.
Proof.
  intros Ht Hc He Hcb HRb Hv.
  destruct (brokerage_close tv cb Rb Ht Hc He Hcb) as (N & C).
  destruct (rate_ok_inv cb Rb Hc) as (_ & HR & _).
  pose proof (SF2Q_pos tv Ht) as Pt.
  apply SFltb_of_Qlt; [exact N|reflexivity|].
  change (SF2Q MIN_BROKERAGE) with (SF2Q (S754_finite false 5629499534213120 (-48))).
  assert (E20 : (SF2Q (S754_finite false 5629499534213120 (-48)) == 20)%Q)
    by reflexivity.
  rewrite E20.
  unfold close in C. apply Qabs_diff_Qle_condition in C.
  change (1 # 2 ^ 50)%Q with (1 # 1125899906842624)%Q in C.
  assert (B1 : (Rb * SF2Q tv <= (705 # 1000000) * SF2Q tv)%Q)
    by (apply Qmult_le_compat_r; [exact HRb|now apply Qlt_le_weak]).
  set (RT := (Rb * SF2Q tv)%Q) in *.
  assert (E1 : (Rb * (118 # 100) * SF2Q tv == (118 # 100) * RT)%Q)
    by (unfold RT; ring).
  rewrite E1 in C. destruct C as [C1 C2]. lra.
Qed.

(** ** Stamp duty (C3) *)

(** C3, as the code has it.  For a leg with positive quantity and price
    the stamp duty is 0.00002 x tradeValue for an F&O BUY, 0.00015 x
    tradeValue for a delivery BUY, 0.00003 x tradeValue for any other BUY
    and exactly 0 for every SELL.  When the trade value is a normal double
    of at least 2^-1000 (so that no product underflows), legs of that trade
    value pay strictly more as a delivery BUY than as another non-F&O BUY,
    and strictly more as that than as an F&O BUY. *)
Theorem stampDuty_schedule (qty price : number) (action segment : string) :
  (qty > lit 0)%js = true -> (price > lit 0)%js = true ->
  let l := tradeLocals qty price action segment in
  let tv := (qty * price)%js in
  (isFO segment = true -> isBUY action = true ->
     l_stampDuty l = (tv * lit 0.00002)%js)
  /\ (isDelivery segment = true -> isBUY action = true ->
      l_stampDuty l = (tv * lit 0.00015)%js)
  /\ (isFO segment = false -> isDelivery segment = false ->
      isBUY action = true -> l_stampDuty l = (tv * lit 0.00003)%js)
  /\ (isSELL action = true -> l_stampDuty l = S754_zero false)
  /\ (normal_pos tv = true -> -1000 <= exponent tv ->
      forall ad sd an sn af sf : string,
        isBUY ad = true -> isDelivery sd = true ->
        isBUY an = true -> isFO sn = false -> isDelivery sn = false ->
        isBUY af = true -> isFO sf = true ->
        (l_stampDuty (tradeLocals qty price an sn)
         < l_stampDuty (tradeLocals qty price ad sd))%js = true
        /\ (l_stampDuty (tradeLocals qty price af sf)
            < l_stampDuty (tradeLocals qty price an sn))%js = true).
Proof.
  intros _ _ l tv.
  destruct (stampDuty_cases qty price action segment) as (H1 & H2 & H3 & H4).
  repeat (split; [assumption|]).
  intros Hn He ad sd an sn af sf Bd Dd Bn Fn Dn Bf Ff.
  destruct (stampDuty_cases qty price ad sd) as (_ & -> & _ & _); auto.
  destruct (stampDuty_cases qty price an sn) as (_ & _ & -> & _); auto.
  destruct (stampDuty_cases qty price af sf) as (-> & _ & _ & _); auto.
  now apply stampDuty_order.
Qed.

Lemma stampDuty_schedule_witness :
  (l_stampDuty (tradeLocals (lit 100) (lit 1000) "BUY" "INTRADAY")
   < l_stampDuty (tradeLocals (lit 100) (lit 1000) "BUY" "ROLLING T1"))%js = true
  /\ (l_stampDuty (tradeLocals (lit 100) (lit 1000) "BUY" "F&O")
      < l_stampDuty (tradeLocals (lit 100) (lit 1000) "BUY" "INTRADAY"))%js = true.
Proof.
  destruct (stampDuty_schedule (lit 100) (lit 1000) "BUY" "INTRADAY"
              eq_refl eq_refl) as (_ & _ & _ & _ & H).
  apply (H eq_refl); try reflexivity. vm_compute. discriminate.
Defined.

(** C3 as stated fails: the quantity and the price [tiny] are positive,
    their product underflows to 0, and the three BUY stamp duties are all 0:
    none strictly exceeds another. *)
Lemma stampDuty_order_fails_on_underflow :
  (tiny > lit 0)%js = true
  /\ l_stampDuty (tradeLocals tiny tiny "BUY" "ROLLING T1") = S754_zero false
  /\ l_stampDuty (tradeLocals tiny tiny "BUY" "INTRADAY") = S754_zero false
  /\ l_stampDuty (tradeLocals tiny tiny "BUY" "F&O") = S754_zero false
  /\ (l_stampDuty (tradeLocals tiny tiny "BUY" "INTRADAY")
      < l_stampDuty (tradeLocals tiny tiny "BUY" "ROLLING T1"))%js = false.
Proof. vm_compute. repeat split. Qed.

(** ** Linearity of the charges (C9) *)

Lemma rate_stt_close tv action segment :
  normal_pos tv = true -> -1000 <= exponent tv ->
  close (1 # 2 ^ 51)
    (if (isFO segment && isSELL action)%bool then (tv * lit 0.0002)%js
     else if isDelivery segment then (tv * lit 0.001)%js
     else if isSELL action then (tv * lit 0.00025)%js else lit 0)
    (rate_stt action segment * SF2Q tv).
Proof.
  intros Ht He. pose proof (normal_pos_exponent tv Ht) as Hb.
  unfold rate_stt.
  destruct (isFO segment && isSELL action)%bool;
    [|destruct (isDelivery segment); [|destruct (isSELL action)]];
    try (apply mul_rate; [exact Ht|reflexivity|];
         match goal with |- context [exponent (lit ?f)] =>
           let v := eval vm_compute in (exponent (lit f)) in
           change (exponent (lit f)) with v end; lia).
  apply close_zero. ring.
Qed.

Lemma rate_stampDuty_close tv action segment :
  normal_pos tv = true -> -1000 <= exponent tv ->
  close (1 # 2 ^ 51)
    (if (isFO segment && isBUY action)%bool then (tv * lit 0.00002)%js
     else if isDelivery segment
     then (if isBUY action then (tv * lit 0.00015)%js else lit 0)
     else (if isBUY action then (tv * lit 0.00003)%js else lit 0))
    (rate_stampDuty action segment * SF2Q tv).
Proof.
  intros Ht He. pose proof (normal_pos_exponent tv Ht) as Hb.
  unfold rate_stampDuty.
  destruct (isFO segment && isBUY action)%bool;
    [|destruct (isDelivery segment); destruct (isBUY action)];
    try (apply mul_rate; [exact Ht|reflexivity|];
         match goal with |- context [exponent (lit ?f)] =>
           let v := eval vm_compute in (exponent (lit f)) in
           change (exponent (lit f)) with v end; lia);
    apply close_zero; ring.
Qed.

Lemma rate_nonneg action segment :
  (0 <= rate_brokerage segment)%Q /\ (0 <= rate_stt action segment)%Q
  /\ (0 <= rate_stampDuty action segment)%Q.
Proof.
  unfold rate_brokerage, rate_brokerageBase, rate_stt, rate_stampDuty.
  repeat split;
    repeat match goal with |- context [if ?b then _ else _] => destruct b end;
    discriminate.
Qed.

(** C9, as the code has it.  For a leg with positive quantity and price the
    total brokerage, the STT and the stamp duty are each at least 0, and the
    total brokerage is base + base x 0.18 with no floor.  Each is a fixed
    rate (fixed by action and segment) times the trade value only up to
    rounding: when the trade value is a normal double of at least 2^-1000,
    within a relative 2^-50 of rate x tradeValue; and a trade value of at
    most 20000 pays a total brokerage strictly below MIN_BROKERAGE. *)
Theorem charges_linear_up_to_rounding
  (qty price : number) (action segment : string) :
  (qty > lit 0)%js = true -> (price > lit 0)%js = true ->
  let l := tradeLocals qty price action segment in
  let tv := (qty * price)%js in
  (lit 0 <= l_totalBrokerage l)%js = true
  /\ (lit 0 <= l_stt l)%js = true
  /\ (lit 0 <= l_stampDuty l)%js = true
  /\ l_totalBrokerage l = (l_brokerageBase l + l_brokerageBase l * TAX_GST)%js
  /\ (normal_pos tv = true -> -1000 <= exponent tv ->
      close (1 # 2 ^ 50) (l_totalBrokerage l) (rate_brokerage segment * SF2Q tv)
      /\ close (1 # 2 ^ 50) (l_stt l) (rate_stt action segment * SF2Q tv)
      /\ close (1 # 2 ^ 50) (l_stampDuty l)
           (rate_stampDuty action segment * SF2Q tv)
      /\ ((SF2Q tv <= 20000)%Q ->
          (l_totalBrokerage l < MIN_BROKERAGE)%js = true)).
Proof.
  intros Hq Hp l tv.
  destruct (charges_sign qty price action segment Hq Hp)
    as (_ & _ & S1 & S2 & _ & S3 & _).
  repeat (split; [now apply sign_pos_le|]).
  split; [reflexivity|].
  intros Hn He. subst l tv.
  pose proof (SF2Q_pos _ Hn) as Pt.
  destruct (rate_nonneg action segment) as (R1 & R2 & R3).
  assert (W : (1 # 2 ^ 51 <= 1 # 2 ^ 50)%Q) by discriminate.
  unfold tradeLocals.
  cbn [l_totalBrokerage l_stt l_stampDuty l_brokerageBase].
  fold (isDelivery segment) (isFO segment) (isSELL action) (isBUY action).
  set (tv := (qty * price)%js) in *.
  split; [|split; [|split]].
  - unfold rate_brokerage, rate_brokerageBase, RATE_BROKERAGE_DELIVERY.
    destruct (isDelivery segment);
      apply brokerage_close; try assumption; try reflexivity;
      match goal with |- context [exponent (lit ?f)] =>
        let v := eval vm_compute in (exponent (lit f)) in
        change (exponent (lit f)) with v end; lia.
  - apply close_weaken with (1 := W);
      [apply Qmult_le_0_compat; [exact R2|now apply Qlt_le_weak]|].
    now apply rate_stt_close.
  - apply close_weaken with (1 := W);
      [apply Qmult_le_0_compat; [exact R3|now apply Qlt_le_weak]|].
    now apply rate_stampDuty_close.
  - intros Hv. unfold RATE_BROKERAGE_DELIVERY.
    destruct (isDelivery segment);
      [apply brokerage_below_min
         with (Rb := (704847026178763 # 1000000000000000000)%Q)
      |apply brokerage_below_min with (Rb := (7 # 100000)%Q)];
      try assumption; try reflexivity; try discriminate;
      match goal with |- context [exponent (lit ?f)] =>
        let v := eval vm_compute in (exponent (lit f)) in
        change (exponent (lit f)) with v end; lia.
Qed.

Lemma charges_linear_up_to_rounding_witness :
  close (1 # 2 ^ 50)
    (l_totalBrokerage (tradeLocals (lit 100) (lit 1000) "BUY" "ROLLING T1"))
    (rate_brokerage "ROLLING T1" * SF2Q (lit 100 * lit 1000)%js)
  /\ (l_totalBrokerage (tradeLocals (lit 1) (lit 1000) "BUY" "ROLLING T1")
      < MIN_BROKERAGE)%js = true.
Proof.
  split.
  - destruct (charges_linear_up_to_rounding (lit 100) (lit 1000) "BUY" "ROLLING T1"
                eq_refl eq_refl) as (_ & _ & _ & _ & H).
    apply (H eq_refl). vm_compute. discriminate.
  - destruct (charges_linear_up_to_rounding (lit 1) (lit 1000) "BUY" "ROLLING T1"
                eq_refl eq_refl) as (_ & _ & _ & _ & H).
    apply (H eq_refl); vm_compute; discriminate.
Defined.

(** C9 as stated fails: the charges are not exactly homogeneous.  Tripling
    the quantity does not triple the total brokerage of a delivery BUY of 1
    at 1000, nor the STT of an intraday SELL of 1 at 100. *)
Lemma tripling_is_not_exact :
  strict_eq
    (l_totalBrokerage (tradeLocals (lit 3 * lit 1)%js (lit 1000) "BUY" "ROLLING T1"))
    (lit 3 * l_totalBrokerage (tradeLocals (lit 1) (lit 1000) "BUY" "ROLLING T1"))%js
  = false
  /\ strict_eq
       (l_stt (tradeLocals (lit 3 * lit 1)%js (lit 100) "SELL" "INTRADAY"))
       (lit 3 * l_stt (tradeLocals (lit 1) (lit 100) "SELL" "INTRADAY"))%js
     = false
  /\ (lit 3 * lit 1)%js = lit 3.
Proof. vm_compute. repeat split. Qed.

(** ** The size of the charges

    Every charge of a leg whose trade value is a normal double is 0 or a
    normal double a few binades below the trade value; so are the sums. *)

Lemma inrange_weaken lo hi lo' hi' x :
  inrange lo hi x -> lo' <= lo -> hi <= hi' -> inrange lo' hi' x.
Proof. unfold inrange. intros (N & E) H1 H2. split; [exact N|lia]. Qed.

Lemma mul_inrange x c :
  normal_pos x = true -> normal_pos c = true ->
  -1022 <= exponent x + exponent c <= 1021 ->
  inrange (exponent x + exponent c) (exponent x + exponent c + 2) (x * c)%js.
Proof.
  intros Hx Hc HE. destruct (mul_normal x c Hx Hc HE) as (N & E & _).
  split; assumption.
Qed.

Lemma add_inrange a b c d x y :
  inrange a b x -> inrange c d y -> Z.max b d <= 1021 ->
  inrange (Z.max a c) (Z.max b d + 2) (x + y)%js.
Proof.
  intros (Nx & Ex) (Ny & Ey) H.
  destruct (add_normal x y Nx Ny ltac:(lia)) as (N & E & _).
  split; [exact N|]. fold (add x y) in E. lia.
Qed.

Lemma add_zero_l y : normal_pos y = true -> (lit 0 + y)%js = y.
Proof. destruct y as [| | |[] m e]; try discriminate; reflexivity. Qed.

Lemma add_zero_r x : normal_pos x = true -> (x + lit 0)%js = x.
Proof. destruct x as [| | |[] m e]; try discriminate; reflexivity. Qed.

Ltac eval_exponents :=
  repeat match goal with
    | |- context [exponent (lit ?f)] =>
        let v := eval vm_compute in (exponent (lit f)) in
        change (exponent (lit f)) with v
    | |- context [exponent TAX_GST] => change (exponent TAX_GST) with (-3)
    | |- context [exponent RATE_BROKERAGE_DELIVERY] =>
        change (exponent RATE_BROKERAGE_DELIVERY) with (-11)
    end.

Ltac mul_by_rate Ht :=
  eapply inrange_weaken;
  [apply mul_inrange; [exact Ht|reflexivity|eval_exponents; lia]
  |eval_exponents; lia|eval_exponents; lia].

Lemma brokerage_inrange tv segment :
  normal_pos tv = true -> -1000 <= exponent tv ->
  inrange (exponent tv - 14) (exponent tv - 7)
    ((if isDelivery segment then tv * RATE_BROKERAGE_DELIVERY
      else tv * lit 0.00007)
     + (if isDelivery segment then tv * RATE_BROKERAGE_DELIVERY
        else tv * lit 0.00007) * TAX_GST)%js.
Proof.
  intros Ht He. pose proof (normal_pos_exponent tv Ht) as Hb.
  assert (Hbase : inrange (exponent tv - 14) (exponent tv - 9)
            (if isDelivery segment then tv * RATE_BROKERAGE_DELIVERY
             else tv * lit 0.00007)%js)
    by (destruct (isDelivery segment); mul_by_rate Ht).
  set (base := (if isDelivery segment then _ else _)%js) in *.
  assert (Hgst : inrange (exponent tv - 17) (exponent tv - 10) (base * TAX_GST)%js)
    by (destruct Hbase as (Nb & Eb); mul_by_rate Nb).
  eapply inrange_weaken; [apply (add_inrange _ _ _ _ _ _ Hbase Hgst)|..]; lia.
Qed.

Lemma sebiExchange_inrange tv segment :
  normal_pos tv = true -> -1000 <= exponent tv ->
  inrange (exponent tv - 16) (exponent tv - 11)
    (tv * lit 0.000001
     + (if isFO segment then tv * lit 0.0000183 else tv * lit 0.0000307))%js.
Proof.
  intros Ht He. pose proof (normal_pos_exponent tv Ht) as Hb.
  assert (H1 : inrange (exponent tv - 20) (exponent tv - 18) (tv * lit 0.000001)%js)
    by mul_by_rate Ht.
  assert (H2 : inrange (exponent tv - 16) (exponent tv - 13)
                 (if isFO segment then tv * lit 0.0000183
                  else tv * lit 0.0000307)%js)
    by (destruct (isFO segment); mul_by_rate Ht).
  eapply inrange_weaken; [apply (add_inrange _ _ _ _ _ _ H1 H2)|..]; lia.
Qed.

Lemma stt_zero_or_inrange tv action segment :
  normal_pos tv = true -> -1000 <= exponent tv ->
  forall x,
    x = (if (isFO segment && isSELL action)%bool then (tv * lit 0.0002)%js
         else if isDelivery segment then (tv * lit 0.001)%js
         else if isSELL action then (tv * lit 0.00025)%js else lit 0) ->
    x = lit 0 \/ inrange (exponent tv - 13) (exponent tv - 8) x.
Proof.
  intros Ht He x ->. pose proof (normal_pos_exponent tv Ht) as Hb.
  destruct (isFO segment && isSELL action)%bool; [right; mul_by_rate Ht|].
  destruct (isDelivery segment); [right; mul_by_rate Ht|].
  destruct (isSELL action); [right; mul_by_rate Ht|now left].
Qed.

Lemma stampDuty_zero_or_inrange tv action segment :
  normal_pos tv = true -> -1000 <= exponent tv ->
  forall x,
    x = (if (isFO segment && isBUY action)%bool then (tv * lit 0.00002)%js
         else if isDelivery segment
         then (if isBUY action then (tv * lit 0.00015)%js else lit 0)
         else (if isBUY action then (tv * lit 0.00003)%js else lit 0)) ->
    x = lit 0 \/ inrange (exponent tv - 16) (exponent tv - 11) x.
Proof.
  intros Ht He x ->. pose proof (normal_pos_exponent tv Ht) as Hb.
  destruct (isFO segment && isBUY action)%bool; [right; mul_by_rate Ht|].
  destruct (isDelivery segment); destruct (isBUY action);
    try (now left); right; mul_by_rate Ht.
Qed.

(** The total of a leg lies between 2^-16 and 2 times its trade value. *)
Lemma totalCharges_inrange (qty price : number) (action segment : string) :
  let tv := (qty * price)%js in
  normal_pos tv = true -> -1000 <= exponent tv ->
  inrange (exponent tv - 16) (exponent tv)
    (l_totalCharges (tradeLocals qty price action segment)).
Proof.
  intros tv Ht He. pose proof (normal_pos_exponent tv Ht) as Hb.
  unfold tradeLocals. cbn [l_totalCharges].
  fold (isDelivery segment) (isFO segment) (isSELL action) (isBUY action) tv.
  pose proof (brokerage_inrange tv segment Ht He) as Hbrok.
  pose proof (sebiExchange_inrange tv segment Ht He) as Hsebi.
  pose proof (stt_zero_or_inrange tv action segment Ht He _ eq_refl) as Hstt.
  pose proof (stampDuty_zero_or_inrange tv action segment Ht He _ eq_refl) as Hstamp.
  set (brok := (_ + _ * TAX_GST)%js) in *.
  set (sebi := (tv * lit 0.000001 + _)%js) in *.
  set (stt' := if (isFO segment && isSELL action)%bool then _ else _) in *.
  set (sd' := if (isFO segment && isBUY action)%bool then _ else _) in *.
  assert (H1 : inrange (exponent tv - 16) (exponent tv - 6) (stt' + sebi)%js).
  { destruct Hstt as [->|Hs].
    - rewrite add_zero_l by apply Hsebi.
      eapply inrange_weaken; [exact Hsebi|lia|lia].
    - eapply inrange_weaken; [apply (add_inrange _ _ _ _ _ _ Hs Hsebi)|..]; lia. }
  assert (H2 : inrange (exponent tv - 16) (exponent tv - 4) (stt' + sebi + sd')%js).
  { destruct Hstamp as [->|Hs].
    - rewrite add_zero_r by apply H1.
      eapply inrange_weaken; [exact H1|lia|lia].
    - eapply inrange_weaken; [apply (add_inrange _ _ _ _ _ _ H1 Hs)|..]; lia. }
  eapply inrange_weaken; [apply (add_inrange _ _ _ _ _ _ H2 Hbrok)|..]; lia.
Qed.

(** ** Profit and loss of a valid pair (C1) *)

Lemma strict_eq_pos x y :
  (x > lit 0)%js = true -> strict_eq x y = true -> y = x.
Proof.
  rewrite lit_zero. unfold strict_eq, SFeqb.
  destruct x as [[]|[]| |[] mx ex]; try discriminate;
    destruct y as [[]|[]| |[] my ey]; try discriminate; intros _; try reflexivity.
  cbn [SFcompare].
  destruct (Z.compare_spec ey ex) as [->|L|G];
    destruct (Z.compare_spec ex ex); try lia; try discriminate.
  - change (Pos.compare_cont Eq mx my) with (Pos.compare mx my).
    destruct (Pos.compare_spec mx my) as [->| |]; try discriminate. reflexivity.
  - destruct (Z.compare_spec ex ey); try lia; discriminate.
  - destruct (Z.compare_spec ex ey); try lia; discriminate.
Qed.

(** Dividing by a quantity and multiplying back gives the dividend up to a
    relative error of 2^-51. *)
Lemma quotient_times_divisor x q :
  normal_pos x = true -> normal_pos q = true ->
  -1021 <= exponent x - exponent q <= 1022 -> -1021 <= exponent x <= 1020 ->
  close (1 # 2 ^ 51) (x / q * q)%js (SF2Q x).
Proof.
  intros Hx Hq E1 E2.
  destruct (div_normal x q Hx Hq E1) as (Nd & Ed & Cd).
  fold (div x q) in Nd, Ed, Cd.
  destruct (mul_normal (x / q)%js q Nd Hq ltac:(lia)) as (Nm & _ & Cm).
  fold (mul (x / q)%js q) in Nm, Cm.
  pose proof (SF2Q_pos x Hx) as Px. pose proof (SF2Q_pos q Hq) as Pq.
  unfold close.
  set (B := (SF2Q (x / q)%js * SF2Q q)%Q) in *.
  assert (HB : (Qabs (B - SF2Q x) <= u * SF2Q x)%Q).
  { assert (E : (B - SF2Q x == (SF2Q (x / q)%js - SF2Q x / SF2Q q) * SF2Q q)%Q).
    { unfold B. field. intros Z0. rewrite Z0 in Pq. discriminate. }
    assert (E' : (u * SF2Q x == u * (SF2Q x / SF2Q q) * SF2Q q)%Q).
    { field. intros Z0. rewrite Z0 in Pq. discriminate. }
    rewrite E, E', Qabs_Qmult, (Qabs_pos (SF2Q q)) by (now apply Qlt_le_weak).
    apply Qmult_le_compat_r; [exact Cd|now apply Qlt_le_weak]. }
  apply Qabs_diff_Qle_condition in HB, Cm.
  apply Qabs_diff_Qle_condition.
  rewrite u_value in *.
  change (1 # 2 ^ 51)%Q with (1 # 2251799813685248)%Q.
  destruct HB as [HB1 HB2], Cm as [Cm1 Cm2].
  split; lra.
Qed.

(** C1, as the code has it.  For a pair with positive quantities and prices
    and equal quantities the handler shows the result of: grossProfit =
    sellQty x sellPrice - buyQty x buyPrice, on the unrounded products;
    totalCharges = the sum of the unrounded totals of the two legs (the sell
    leg being charged in the buy leg's segment); netProfitLoss = grossProfit
    - totalCharges; breakEvenPrice = (buy trade value + totalCharges) /
    buyQty.  breakEvenPrice x buyQty is buy trade value + totalCharges only
    up to rounding: within a relative 2^-51 when the quantity and the two
    prices are normal doubles between 2^-250 and 2^251. *)
Theorem pnl_of_valid_pair (pg : Page) :
  let f := form pg in
  (buyQty f > lit 0)%js = true -> (buyPrice f > lit 0)%js = true ->
  (sellQty f > lit 0)%js = true -> (sellPrice f > lit 0)%js = true ->
  strict_eq (buyQty f) (sellQty f) = true ->
  let b := tradeLocals (buyQty f) (buyPrice f) "BUY" (buySegment f) in
  let s := tradeLocals (sellQty f) (sellPrice f) "SELL" (buySegment f) in
  let r := pnlLocals (mirrored f) in
  let X := (l_tradeValue b + pl_totalCharges r)%js in
  calculateProfitLoss pg = (ExitShown, shown pg r)
  /\ grossProfit r = (sellQty f * sellPrice f - buyQty f * buyPrice f)%js
  /\ pl_totalCharges r = (l_totalCharges b + l_totalCharges s)%js
  /\ netProfitLoss r = (grossProfit r - pl_totalCharges r)%js
  /\ sellPriceRequiredToBreakEven r = (X / buyQty f)%js
  /\ (inrange (-250) 250 (buyQty f) -> inrange (-250) 250 (buyPrice f) ->
      inrange (-250) 250 (sellPrice f) ->
      close (1 # 2 ^ 51) (sellPriceRequiredToBreakEven r * buyQty f)%js (SF2Q X)).
Proof.
  intros f Hbq Hbp Hsq Hsp Heq b s r X.
  assert (Es : sellQty f = buyQty f) by (now apply strict_eq_pos).
  assert (Ebe : sellPriceRequiredToBreakEven r = (X / buyQty f)%js).
  { subst r X b. unfold pnlLocals.
    cbn [sellPriceRequiredToBreakEven mirrored mkForm buyQty buyPrice buySegment
         pl_totalCharges].
    now rewrite Hbq. }
  split; [now apply positive_inputs_shown|].
  subst b s. rewrite Es.
  repeat (split; [reflexivity|]).
  split; [exact Ebe|].
  intros (Nq & Eq) (Nb & Eb) (Ns & Es'). rewrite Ebe.
  (* the sizes of the two trade values, of the two totals and of their sum *)
  destruct (mul_inrange (buyQty f) (buyPrice f) Nq Nb ltac:(lia)) as (NtB & EtB).
  destruct (mul_inrange (buyQty f) (sellPrice f) Nq Ns ltac:(lia)) as (NtS & EtS).
  pose proof (totalCharges_inrange (buyQty f) (buyPrice f) "BUY" (buySegment f)
                NtB ltac:(lia)) as HB.
  pose proof (totalCharges_inrange (buyQty f) (sellPrice f) "SELL" (buySegment f)
                NtS ltac:(lia)) as HS.
  pose proof (add_inrange _ _ _ _ _ _ HB HS ltac:(lia)) as HT.
  assert (HtB : inrange (exponent (buyQty f * buyPrice f)%js)
                        (exponent (buyQty f * buyPrice f)%js)
                        (buyQty f * buyPrice f)%js) by (split; [exact NtB|lia]).
  pose proof (add_inrange _ _ _ _ _ _ HtB HT ltac:(lia)) as (NX & EX).
  assert (NX' : normal_pos X = true) by exact NX.
  match type of EX with
  | ?lo <= _ <= ?hi => assert (EX' : lo <= exponent X <= hi) by exact EX
  end.
  apply quotient_times_divisor; try assumption; lia.
Qed.

Lemma pnl_of_valid_pair_witness :
  grossProfit (pnlLocals (mirrored form_intraday_50)) = lit 500
  /\ fst (calculateProfitLoss (blank form_intraday_50)) = ExitShown
  /\ close (1 # 2 ^ 51)
       (sellPriceRequiredToBreakEven (pnlLocals (mirrored form_intraday_50))
        * lit 50)%js
       (SF2Q (totalBuyTradeValue (pnlLocals (mirrored form_intraday_50))
              + pl_totalCharges (pnlLocals (mirrored form_intraday_50)))%js).
Proof.
  destruct (pnl_of_valid_pair (blank form_intraday_50)
              eq_refl eq_refl eq_refl eq_refl eq_refl)
    as (H1 & H2 & _ & _ & _ & H6).
  split; [etransitivity; [exact H2|reflexivity]|].
  split; [rewrite H1; reflexivity|].
  apply H6; vm_compute; (split; [reflexivity|split; discriminate]).
Defined.

(** C1 as stated fails: for 9 shares bought at 100 (intraday) and sold at
    110 (delivery), breakEvenPrice x buyQty is not the number buy trade
    value + totalCharges, and totalCharges is not the sum of the totals of
    the two legs as supplied, the sell leg being charged as intraday. *)
Lemma break_even_times_quantity_is_not_exact :
  fst (calculateProfitLoss (blank form_nine_shares)) = ExitShown
  /\ isFinite (sellPriceRequiredToBreakEven (pnlLocals (mirrored form_nine_shares)))
     = true
  /\ strict_eq
       (sellPriceRequiredToBreakEven (pnlLocals (mirrored form_nine_shares))
        * buyQty form_nine_shares)%js
       (totalBuyTradeValue (pnlLocals (mirrored form_nine_shares))
        + pl_totalCharges (pnlLocals (mirrored form_nine_shares)))%js = false
  /\ strict_eq
       (pl_totalCharges (pnlLocals (mirrored form_nine_shares)))
       (l_totalCharges (tradeLocals (lit 9) (lit 100) "BUY" "INTRADAY")
        + l_totalCharges (tradeLocals (lit 9) (lit 110) "SELL" "ROLLING T1"))%js
     = false.
Proof. vm_compute. repeat split. Qed.

(** * Part III: further properties *)

(** ** Math.round *)

Section MathRound.

Lemma is_double_finite s m e :
  is_double (S754_finite s m e) = true ->
  Z.pos m < 2 ^ 53 /\ -1074 <= e <= 971.
Proof.
  unfold is_double, SpecFloat.valid_binary, bounded, canonical_mantissa.
  intros H. apply andb_true_iff in H as [H1 H2].
  apply Z.eqb_eq in H1. apply Z.leb_le in H2.
  rewrite fexp_eq in H1. change (emax - prec) with 971 in H2.
  pose proof (digits2_pos_bounds m) as [_ B].
  assert (Hd : Z.pos (digits2_pos m) <= 53) by lia.
  split; [|lia].
  apply Z.lt_le_trans with (1 := B). apply Z.pow_le_mono_r; lia.
Qed.

Lemma normal_pos_is_double x : normal_pos x = true -> is_double x = true.
Proof.
  intros H. destruct (normal_pos_inv x H) as (m & e & -> & Hm & He).
  unfold is_double, SpecFloat.valid_binary, bounded, canonical_mantissa.
  rewrite (digits2_pos_unique m 53 Hm), fexp_eq.
  change (emax - prec) with 971.
  apply andb_true_iff. split; [apply Z.eqb_eq|apply Z.leb_le]; lia.
Qed.

Lemma shl_align_snd m e e' : e' <= e -> snd (shl_align m e e') = e'.
Proof.
  intros H. unfold shl_align.
  destruct (e' - e) as [|d|d] eqn:E; try lia; cbn [snd]; lia.
Qed.

(** A mantissa of exactly 53 bits with an exponent in range is kept. *)
Lemma binary_round_aux_canonical s mz ez :
  2 ^ 52 <= Z.pos mz < 2 ^ 53 -> -1074 <= ez <= 971 ->
  binary_round_aux prec emax s (Z.pos mz) ez loc_Exact = S754_finite s mz ez.
Proof.
  intros Hm He. unfold binary_round_aux.
  rewrite shr_fexp_canonical by (try exact Hm; lia).
  cbn [shr_m loc_of_shr_record round_nearest_even].
  rewrite shr_fexp_canonical by (try exact Hm; lia).
  cbn [shr_m]. change (emax - prec) with 971.
  now replace (ez <=? 971) with true by (symmetry; apply Z.leb_le; lia).
Qed.

(** An integer below 2^53 is a double: its bits are shifted to the top. *)
Lemma binary_round_small s m :
  Z.pos m < 2 ^ 53 ->
  exists mz,
    binary_round prec emax s m 0
    = S754_finite s mz (Z.pos (digits2_pos m) - 53)
    /\ Z.pos mz = Z.pos m * 2 ^ (53 - Z.pos (digits2_pos m))
    /\ 2 ^ 52 <= Z.pos mz < 2 ^ 53.
Proof.
  intros Hm. set (d := Z.pos (digits2_pos m)).
  pose proof (digits2_pos_bounds m) as B. fold d in B.
  assert (Hd : 1 <= d <= 53).
  { split; [subst d; lia|].
    destruct (Z.leb_spec d 53); auto.
    assert (2 ^ 53 <= 2 ^ (d - 1)) by (apply Z.pow_le_mono_r; lia). lia. }
  unfold binary_round. rewrite Z.add_0_r, fexp_eq. fold d.
  replace (Z.max (d - 53) (-1074)) with (d - 53) by lia.
  pose proof (shl_align_fst m 0 (d - 53) ltac:(lia)) as Ef.
  pose proof (shl_align_snd m 0 (d - 53) ltac:(lia)) as Es.
  destruct (shl_align m 0 (d - 53)) as [mz ez]. cbn [fst snd] in Ef, Es. subst ez.
  replace (0 - (d - 53)) with (53 - d) in Ef by lia.
  assert (Hmz : 2 ^ 52 <= Z.pos mz < 2 ^ 53).
  { rewrite Ef.
    replace (2 ^ 52) with (2 ^ (d - 1) * 2 ^ (53 - d))
      by (rewrite <- Z.pow_add_r by lia; f_equal; lia).
    replace (2 ^ 53) with (2 ^ d * 2 ^ (53 - d))
      by (rewrite <- Z.pow_add_r by lia; f_equal; lia).
    assert (0 < 2 ^ (53 - d)) by (apply Z.pow_pos_nonneg; lia).
    split; [apply Z.mul_le_mono_nonneg_r|apply Z.mul_lt_mono_pos_r]; lia. }
  exists mz. split; [|split; assumption].
  apply binary_round_aux_canonical; [exact Hmz|lia].
Qed.

(** The value of a small integer made a double is that integer. *)
Lemma binary_normalize_small n s :
  Z.abs n < 2 ^ 53 ->
  (SF2Q (binary_normalize prec emax n 0 s) == inject_Z n)%Q.
Proof.
  intros Hn. destruct n as [|p|p]; cbn [binary_normalize].
  - reflexivity.
  - destruct (binary_round_small false p Hn) as (mz & -> & E & _).
    cbn [SF2Q]. rewrite E, inject_Z_mult.
    set (d := Z.pos (digits2_pos p)) in *.
    assert (Hd : 0 <= 53 - d).
    { destruct (Z.leb_spec d 53); [lia|].
      pose proof (digits2_pos_bounds p) as [B _]. fold d in B.
      assert (2 ^ 53 <= 2 ^ (d - 1)) by (apply Z.pow_le_mono_r; lia). lia. }
    rewrite pow2_Z by exact Hd.
    rewrite Qmult_1_l, <- Qmult_assoc, <- pow2_add.
    replace (53 - d + (d - 53)) with 0 by lia. apply Qmult_1_r.
  - destruct (binary_round_small true p Hn) as (mz & -> & E & _).
    cbn [SF2Q]. rewrite E, inject_Z_mult.
    set (d := Z.pos (digits2_pos p)) in *.
    assert (Hd : 0 <= 53 - d).
    { destruct (Z.leb_spec d 53); [lia|].
      pose proof (digits2_pos_bounds p) as [B _]. fold d in B.
      assert (2 ^ 53 <= 2 ^ (d - 1)) by (apply Z.pow_le_mono_r; lia). lia. }
    rewrite pow2_Z by exact Hd.
    change (inject_Z (Z.neg p)) with (- inject_Z (Z.pos p))%Q.
    setoid_replace (-1 * (inject_Z (Z.pos p) * 2 ^ (53 - d) * 2 ^ (d - 53)))%Q
      with (- (inject_Z (Z.pos p) * (2 ^ (53 - d) * 2 ^ (d - 53))))%Q by ring.
    rewrite <- pow2_add.
    replace (53 - d + (d - 53)) with 0 by lia. ring.
Qed.

End MathRound.

Lemma Qfloor_half z : Qfloor (inject_Z z + (1 # 2)) = z.
Proof.
  assert (E : (inject_Z z + (1 # 2) == inject_Z (2 * z + 1) / inject_Z 2)%Q).
  { rewrite inject_Z_plus, inject_Z_mult. field. }
  rewrite E, <- Zdiv_Qdiv.
  symmetry. apply (Z.div_unique_pos (2 * z + 1) 2 z 1); lia.
Qed.

(** The integer that Math.round computes for a finite double with a
    negative exponent. *)
Lemma Math_round_integer (s : bool) m e :
  Z.pos m < 2 ^ 53 -> e < 0 ->
  let v := if s then Z.neg m else Z.pos m in
  let n := Z.shiftr (2 * v + Z.shiftl 1 (- e)) (- e + 1) in
  n = Qfloor (SF2Q (S754_finite s m e) + (1 # 2)) /\ Z.abs n < 2 ^ 53.
Proof.
  intros Hm He v n.
  assert (Hv : Z.abs v < 2 ^ 53) by (subst v; destruct s; simpl; lia).
  set (k := - e) in *. assert (Hk : 1 <= k) by lia.
  assert (En : n = (2 * v + 2 ^ k) / 2 ^ (k + 1)).
  { subst n. rewrite Z.shiftr_div_pow2, Z.shiftl_mul_pow2 by lia.
    now rewrite Z.mul_1_l. }
  assert (P2 : 2 <= 2 ^ k).
  { change 2 with (2 ^ 1) at 1. apply Z.pow_le_mono_r; lia. }
  assert (Pk : 2 ^ (k + 1) = 2 * 2 ^ k)
    by (rewrite Z.pow_add_r by lia; change (2 ^ 1) with 2; ring).
  split.
  - rewrite En, Zdiv_Qdiv. apply Qfloor_comp.
    cbn [SF2Q]. replace e with (- k) by lia.
    rewrite Qpower_opp, <- !pow2_Z by lia.
    rewrite Pk, inject_Z_plus, !inject_Z_mult.
    assert (P0 : ~ (inject_Z (2 ^ k) == 0)%Q).
    { intros E. apply (Qeq_bool_neq (inject_Z (2 ^ k)) 0); auto.
      unfold Qeq_bool, inject_Z; simpl. rewrite Z.mul_1_r.
      destruct (2 ^ k) eqn:?; try reflexivity; lia. }
    subst v. destruct s.
    + change (inject_Z (Z.neg m)) with (- inject_Z (Z.pos m))%Q. field. exact P0.
    + field. exact P0.
  - rewrite En, Pk. change (2 ^ 53) with 9007199254740992 in *.
    assert (0 < 2 * 2 ^ k) by lia.
    assert (- 9007199254740992 < (2 * v + 2 ^ k) / (2 * 2 ^ k)).
    { apply Z.lt_le_trans with (m := - 9007199254740992 + 1); [lia|].
      apply Z.div_le_lower_bound; [lia|]. nia. }
    assert ((2 * v + 2 ^ k) / (2 * 2 ^ k) < 9007199254740992).
    { apply Z.div_lt_upper_bound; [lia|]. nia. }
    lia.
Qed.

(** Math.round gives the integer nearest to a finite double, a half going
    up: its value is the floor of x + 1/2. *)
Lemma Math_round_nearest (x : number) :
  is_double x = true -> isFinite x = true ->
  (SF2Q (Math_round x) == inject_Z (nearest_integer x))%Q
  /\ isFinite (Math_round x) = true.
Proof.
  intros Hd Hf. unfold nearest_integer.
  destruct x as [s|s| |s m e]; try discriminate.
  - split; reflexivity.
  - destruct (is_double_finite s m e Hd) as (Hm & He).
    unfold Math_round. destruct (Z.leb_spec 0 e) as [H0|H0].
    + split; [|reflexivity].
      assert (E : (SF2Q (S754_finite s m e)
                   == inject_Z ((if s then -1 else 1) * (Z.pos m * 2 ^ e)))%Q).
      { cbn [SF2Q]. rewrite !inject_Z_mult, pow2_Z by exact H0.
        now destruct s. }
      rewrite E at 2. now rewrite Qfloor_half.
    + destruct (Math_round_integer s m e Hm H0) as (En & Hn).
      cbv zeta in En, Hn. rewrite <- En.
      split; [now apply binary_normalize_small|].
      set (n := Z.shiftr _ _) in *.
      destruct n as [|p|p]; cbn [binary_normalize]; [reflexivity| |].
      * now destruct (binary_round_small false p Hn) as (mz & -> & _).
      * now destruct (binary_round_small true p Hn) as (mz & -> & _).
Qed.

(** Rounding an already rounded double changes nothing. *)
Lemma Math_round_idempotent (x : number) :
  is_double x = true -> Math_round (Math_round x) = Math_round x.
Proof.
  intros Hd. destruct x as [s|s| |s m e]; try reflexivity.
  destruct (is_double_finite s m e Hd) as (Hm & He).
  cbn [Math_round]. destruct (Z.leb_spec 0 e) as [H0|H0].
  - cbn [Math_round]. now replace (0 <=? e) with true by (symmetry; apply Z.leb_le; lia).
  - destruct (Math_round_integer s m e Hm H0) as (_ & Hn). cbv zeta in Hn.
    set (n := Z.shiftr _ _) in *.
    assert (Step : forall (sg : bool) p, Z.pos p < 2 ^ 53 ->
              Math_round (binary_round prec emax sg p 0)
              = binary_round prec emax sg p 0).
    { intros sg p Hp.
      destruct (binary_round_small sg p Hp) as (mz & E & Emz & Hmz).
      rewrite E. cbn [Math_round].
      set (d := Z.pos (digits2_pos p)) in *.
      destruct (Z.leb_spec 0 (d - 53)) as [H1|H1]; [reflexivity|].
      set (k := - (d - 53)). assert (Hk : 1 <= k) by (subst k; lia).
      assert (P0 : 0 < 2 ^ k) by (apply Z.pow_pos_nonneg; lia).
      assert (Pk : 2 ^ (k + 1) = 2 * 2 ^ k)
        by (rewrite Z.pow_add_r by lia; change (2 ^ 1) with 2; ring).
      replace (53 - d) with k in Emz by (subst k; lia).
      rewrite Z.shiftr_div_pow2, Z.shiftl_mul_pow2, Z.mul_1_l by lia.
      destruct sg.
      - replace ((2 * Z.neg mz + 2 ^ k) / 2 ^ (k + 1)) with (Z.neg p);
          [cbn [binary_normalize]; exact E|].
        apply (Z.div_unique_pos _ _ (Z.neg p) (2 ^ k)); [lia|].
        rewrite Pk. change (Z.neg mz) with (- Z.pos mz). rewrite Emz.
        change (Z.neg p) with (- Z.pos p). ring.
      - replace ((2 * Z.pos mz + 2 ^ k) / 2 ^ (k + 1)) with (Z.pos p);
          [cbn [binary_normalize]; exact E|].
        apply (Z.div_unique_pos _ _ (Z.pos p) (2 ^ k)); [lia|].
        rewrite Pk, Emz. ring. }
    destruct n as [|p|p]; cbn [binary_normalize]; [reflexivity| |];
      apply Step; exact Hn.
Qed.

Lemma Math_round_class x :
  is_double x = true ->
  isNaN (Math_round x) = isNaN x /\ isFinite (Math_round x) = isFinite x.
Proof.
  intros Hd. destruct x as [s|s| |s m e]; try (split; reflexivity).
  destruct (Math_round_nearest _ Hd eq_refl) as [_ Hf].
  split; [|exact Hf].
  destruct (Math_round (S754_finite s m e)); try reflexivity; discriminate.
Qed.

Lemma formatInteger_finite_double x :
  is_double x = true -> isFinite x = true ->
  formatInteger (Math_round x) = Localized (Math_round x).
Proof.
  intros Hd Hf. destruct (Math_round_class x Hd) as [E1 E2].
  unfold formatInteger. rewrite E1, E2, (Math_round_idempotent x Hd).
  destruct x as [s|s| |s m e]; try discriminate; reflexivity.
Qed.

(** X1.  formatInteger prints a rounded double as it prints the double itself;
    it prints N/A exactly for NaN and the infinities. *)
Theorem formatInteger_of_rounded (x : number) :
  is_double x = true ->
  formatInteger (Math_round x) = formatInteger x
  /\ (formatInteger x = Str "N/A" <-> isFinite x = false).
Proof.
  intros Hd. destruct (Math_round_class x Hd) as [E1 E2].
  unfold formatInteger. rewrite E1, E2, (Math_round_idempotent x Hd).
  split; [reflexivity|].
  destruct x as [s|s| |s m e]; cbn [isNaN isFinite negb orb];
    split; intros H; try reflexivity; discriminate.
Qed.

Lemma formatInteger_of_rounded_witness :
  formatInteger (Math_round (lit 3.17)) = formatInteger (lit 3.17).
Proof. apply (formatInteger_of_rounded (lit 3.17)). reflexivity. Defined.

(** ** The rows of the result table *)

Lemma inrange_double lo hi x :
  inrange lo hi x -> is_double x = true /\ isFinite x = true.
Proof.
  intros (N & _). split; [now apply normal_pos_is_double|].
  destruct x as [| | |[] m e]; try discriminate; reflexivity.
Qed.

Lemma zero_or_inrange_double lo hi x :
  x = lit 0 \/ inrange lo hi x -> is_double x = true /\ isFinite x = true.
Proof.
  intros [->|H]; [split; reflexivity|now apply (inrange_double lo hi)].
Qed.

(** The charges of a leg whose trade value is a normal double are finite
    doubles. *)
Lemma locals_are_doubles (qty price : number) (action segment : string) :
  let l := tradeLocals qty price action segment in
  normal_pos (qty * price)%js = true -> -1000 <= exponent (qty * price)%js ->
  (is_double (l_tradeValue l) = true /\ isFinite (l_tradeValue l) = true)
  /\ (is_double (l_stt l) = true /\ isFinite (l_stt l) = true)
  /\ (is_double (l_sebiExchangeCharges l) = true
      /\ isFinite (l_sebiExchangeCharges l) = true)
  /\ (is_double (l_stampDuty l) = true /\ isFinite (l_stampDuty l) = true)
  /\ (is_double (l_totalBrokerage l) = true
      /\ isFinite (l_totalBrokerage l) = true)
  /\ (is_double (l_totalCharges l) = true /\ isFinite (l_totalCharges l) = true).
Proof.
  intros l Ht He.
  pose proof (totalCharges_inrange qty price action segment Ht He) as Htot.
  subst l. unfold tradeLocals in *.
  cbn [l_tradeValue l_stt l_sebiExchangeCharges l_stampDuty l_totalBrokerage
       l_totalCharges] in *.
  fold (isDelivery segment) (isFO segment) (isSELL action) (isBUY action) in *.
  set (tv := (qty * price)%js) in *.
  split; [apply (inrange_double (exponent tv) (exponent tv)); split; [exact Ht|lia]|].
  split; [apply (zero_or_inrange_double _ _ _
                   (stt_zero_or_inrange tv action segment Ht He _ eq_refl))|].
  split; [apply (inrange_double _ _ _ (sebiExchange_inrange tv segment Ht He))|].
  split; [apply (zero_or_inrange_double _ _ _
                   (stampDuty_zero_or_inrange tv action segment Ht He _ eq_refl))|].
  split; [apply (inrange_double _ _ _ (brokerage_inrange tv segment Ht He))|].
  apply (inrange_double _ _ _ Htot).
Qed.

(** X2.  The six fields that calculateTradeCharges rounds are whole numbers:
    each is the integer nearest to the unrounded charge, a half going up;
    the two underscore fields carry the unrounded trade value and total. *)
Theorem rounded_fields_nearest (q p : number) (action segment : string) :
  normal_pos (q * p)%js = true -> -1000 <= exponent (q * p)%js ->
  let l := tradeLocals q p action segment in
  let c := calculateTradeCharges q p action segment in
  (SF2Q (tradeValue c) == inject_Z (nearest_integer (q * p)%js))%Q
  /\ (SF2Q (stt c) == inject_Z (nearest_integer (l_stt l)))%Q
  /\ (SF2Q (sebiExchangeCharges c)
      == inject_Z (nearest_integer (l_sebiExchangeCharges l)))%Q
  /\ (SF2Q (stampDuty c) == inject_Z (nearest_integer (l_stampDuty l)))%Q
  /\ (SF2Q (totalBrokerage c)
      == inject_Z (nearest_integer (l_totalBrokerage l)))%Q
  /\ (SF2Q (totalCharges c) == inject_Z (nearest_integer (l_totalCharges l)))%Q
  /\ _originalTradeValue c = (q * p)%js
  /\ _originalTotalCharges c = l_totalCharges l.
Proof.
  intros Ht He l c.
  destruct (locals_are_doubles q p action segment Ht He)
    as ((D1 & F1) & (D2 & F2) & (D3 & F3) & (D4 & F4) & (D5 & F5) & (D6 & F6)).
  fold l in D1, F1, D2, F2, D3, F3, D4, F4, D5, F5, D6, F6.
  subst c. unfold calculateTradeCharges.
  cbn [tradeValue stt sebiExchangeCharges stampDuty totalBrokerage totalCharges
       _originalTradeValue _originalTotalCharges].
  fold l. change (q * p)%js with (l_tradeValue l).
  repeat split; now apply Math_round_nearest.
Qed.

Lemma rounded_fields_nearest_witness :
  (SF2Q (totalCharges (calculateTradeCharges (lit 100) (lit 1000) "BUY" "ROLLING T1"))
   == 201)%Q.
Proof.
  destruct (rounded_fields_nearest (lit 100) (lit 1000) "BUY" "ROLLING T1"
              eq_refl ltac:(vm_compute; discriminate))
    as (_ & _ & _ & _ & _ & H & _).
  rewrite H. reflexivity.
Defined.

(** X3.  Each cell of a result row shows the integer nearest to the unrounded
    charge: formatInteger rounds what calculateTradeCharges has already
    rounded, which changes nothing, and no cell is N/A. *)
Theorem result_row_shows_nearest_integers
  (side : string) (qty price : number) (action segment : string) :
  normal_pos (qty * price)%js = true -> -1000 <= exponent (qty * price)%js ->
  let l := tradeLocals qty price action segment in
  updateResultRow side (calculateTradeCharges qty price action segment)
  = [ Str side;
      Localized (Math_round (l_tradeValue l));
      Localized (Math_round (l_stt l));
      Localized (Math_round (l_sebiExchangeCharges l));
      Localized (Math_round (l_stampDuty l));
      Localized (Math_round (l_totalBrokerage l));
      Localized (Math_round (l_totalCharges l)) ].
Proof.
  intros Ht He l.
  destruct (locals_are_doubles qty price action segment Ht He)
    as ((D1 & F1) & (D2 & F2) & (D3 & F3) & (D4 & F4) & (D5 & F5) & (D6 & F6)).
  unfold updateResultRow, calculateTradeCharges.
  cbn [tradeValue stt sebiExchangeCharges stampDuty totalBrokerage totalCharges].
  fold l.
  now rewrite !formatInteger_finite_double.
Qed.

Lemma result_row_shows_nearest_integers_witness :
  updateResultRow "Buy" (calculateTradeCharges (lit 100) (lit 1000) "BUY" "ROLLING T1")
  = [ Str "Buy"; Localized (lit 100000); Localized (lit 100); Localized (lit 3);
      Localized (lit 15); Localized (lit 83); Localized (lit 201) ].
Proof.
  rewrite (result_row_shows_nearest_integers "Buy" (lit 100) (lit 1000)
             "BUY" "ROLLING T1" eq_refl);
    [reflexivity|vm_compute; discriminate].
Defined.

(** ** The exits of the handler *)

Lemma gt_zero_iff x :
  (x > lit 0)%js = true <-> (x <= lit 0)%js = false /\ isNaN x = false.
Proof.
  rewrite lit_zero.
  destruct x as [[]|[]| |[] m e]; cbn; split; try intros [? ?];
    try discriminate; auto.
Qed.

Lemma valid_inputs_positive f :
  invalid (mirrored f) = false ->
  (buyQty f > lit 0)%js = true /\ (buyPrice f > lit 0)%js = true
  /\ (sellPrice f <= lit 0)%js = false.
Proof.
  intros Hv.
  destruct (invalid_false _ Hv) as (H1 & H2 & _ & H4 & H5 & H6).
  cbn [mirrored mkForm buyQty buyPrice sellPrice] in *.
  split; [apply gt_zero_iff; auto|].
  split; [apply gt_zero_iff; auto|exact H4].
Qed.

(** X4.  The exit taken, read off the form as the caller supplied it: the input
    is refused exactly when the buy quantity or the buy price is at most 0
    or NaN or the sell price is at most 0; otherwise the result is shown
    (a sell price that is NaN included); and whichever exit is taken, the
    form is left with the sell quantity and segment of the buy side. *)
Theorem exits_characterised (pg : Page) :
  let f := form pg in
  (fst (calculateProfitLoss pg) = ExitInvalid <->
   (buyQty f <= lit 0)%js = true \/ isNaN (buyQty f) = true
   \/ (buyPrice f <= lit 0)%js = true \/ isNaN (buyPrice f) = true
   \/ (sellPrice f <= lit 0)%js = true)
  /\ (fst (calculateProfitLoss pg) = ExitShown <->
      (buyQty f > lit 0)%js = true /\ (buyPrice f > lit 0)%js = true
      /\ (sellPrice f <= lit 0)%js = false)
  /\ form (snd (calculateProfitLoss pg)) = mirrored f.
Proof.
  intros f. subst f.
  destruct (invalid (mirrored (form pg))) eqn:Hv.
  - rewrite (invalid_refused _ Hv). cbn [fst snd].
    pose proof (proj1 (invalid_mirrored_iff _) Hv) as H.
    split; [tauto|]. split; [|reflexivity].
    split; [discriminate|]. intros (H1 & H2 & H3). exfalso.
    apply gt_zero_iff in H1, H2. destruct H1, H2.
    destruct H as [H|[H|[H|[H|H]]]]; congruence.
  - rewrite (valid_shown _ Hv). cbn [fst snd].
    split; [|split; [|reflexivity]].
    + split; [discriminate|]. intros H.
      apply invalid_mirrored_iff in H. congruence.
    + split; [intros _|reflexivity]. now apply valid_inputs_positive.
Qed.

(** ** Marker classes *)

Lemma classList_remove_app cs l1 l2 :
  classList_remove cs (l1 ++ l2)%list
  = (classList_remove cs l1 ++ classList_remove cs l2)%list.
Proof. unfold classList_remove. apply filter_app. Qed.

Lemma classList_remove_idem cs l :
  classList_remove cs (classList_remove cs l) = classList_remove cs l.
Proof.
  unfold classList_remove. induction l as [|c l IH]; cbn; [reflexivity|].
  destruct (existsb (String.eqb c) cs) eqn:E; cbn; [exact IH|].
  now rewrite E, IH.
Qed.

Lemma existsb_eqb_sym c l :
  existsb (String.eqb c) l = existsb (fun x => String.eqb x c) l.
Proof.
  induction l as [|x l IH]; cbn; [reflexivity|].
  now rewrite IH, String.eqb_sym.
Qed.

Lemma removed_absent c cs l :
  existsb (String.eqb c) cs = true ->
  existsb (String.eqb c) (classList_remove cs l) = false.
Proof.
  intros Hc. unfold classList_remove.
  induction l as [|x l IH]; cbn; [reflexivity|].
  destruct (existsb (String.eqb x) cs) eqn:E; cbn; [exact IH|].
  rewrite IH, orb_false_r.
  destruct (String.eqb_spec c x) as [->|]; [congruence|reflexivity].
Qed.

Lemma add_after_remove c cs l :
  existsb (String.eqb c) cs = true ->
  classList_add c (classList_remove cs l) = (classList_remove cs l ++ [c])%list.
Proof.
  intros Hc. unfold classList_add. now rewrite (removed_absent c cs l Hc).
Qed.

Lemma net_class_marker net :
  existsb (String.eqb (net_class net)) ["profit"; "loss"; "zero"] = true.
Proof.
  unfold net_class.
  destruct (net > lit 0)%js; [reflexivity|].
  destruct (net < lit 0)%js; reflexivity.
Qed.

Lemma net_pl_classList_shown (f : Form) (r : PnlLocals) (old : Figures) :
  net_pl_classList (showFigures f r old)
  = (classList_remove ["profit"; "loss"; "zero"] (net_pl_classList old)
     ++ [net_class (netProfitLoss r)])%list.
Proof.
  unfold showFigures. cbn [net_pl_classList].
  unfold net_class.
  destruct (netProfitLoss r > lit 0)%js;
    [|destruct (netProfitLoss r < lit 0)%js];
    now apply add_after_remove.
Qed.

(** X5.  The class of the net P&L: the three marker classes are removed wherever
    they were, the one for the sign of the net P&L is appended, and the
    other classes keep their order; a net P&L that is NaN is marked "zero".
    The text gets a "+" exactly for a profit. *)
Theorem net_class_set (f : Form) (r : PnlLocals) (old : Figures) :
  net_pl_classList (showFigures f r old)
  = (classList_remove ["profit"; "loss"; "zero"] (net_pl_classList old)
     ++ [net_class (netProfitLoss r)])%list
  /\ (isNaN (netProfitLoss r) = true -> net_class (netProfitLoss r) = "zero")
  /\ net_pl (showFigures f r old)
     = (if (netProfitLoss r > lit 0)%js
        then Plus (formatInteger (netProfitLoss r))
        else formatInteger (netProfitLoss r)).
Proof.
  split; [apply net_pl_classList_shown|split; [|reflexivity]].
  destruct (netProfitLoss r); try discriminate. reflexivity.
Qed.

Lemma filter_of_complement {A} (p : A -> bool) l :
  filter p (filter (fun c => negb (p c)) l) = [].
Proof.
  induction l as [|c l IH]; cbn [filter]; [reflexivity|].
  destruct (p c) eqn:E; cbn [negb filter]; [exact IH|]. now rewrite E.
Qed.

(** X6.  Exactly one marker class is set, once. *)
Theorem one_marker_class (f : Form) (r : PnlLocals) (old : Figures) :
  filter (fun c => existsb (String.eqb c) ["profit"; "loss"; "zero"])
    (net_pl_classList (showFigures f r old))
  = [net_class (netProfitLoss r)].
Proof.
  rewrite net_pl_classList_shown.
  rewrite filter_app. unfold classList_remove.
  rewrite (filter_of_complement
             (fun c => existsb (String.eqb c) ["profit"; "loss"; "zero"])).
  cbn [filter app]. now rewrite net_class_marker.
Qed.

(** ** Running the handler again *)

Lemma mirrored_idem f : mirrored (mirrored f) = mirrored f.
Proof. reflexivity. Qed.

Lemma remove_marker c cs :
  existsb (String.eqb c) cs = true -> classList_remove cs [c] = [].
Proof. intros H. unfold classList_remove. cbn [filter]. now rewrite H. Qed.

Lemma showFigures_idem f r g :
  showFigures f r (showFigures f r g) = showFigures f r g.
Proof.
  pose proof (net_pl_classList_shown f r g) as E.
  pose proof (net_pl_classList_shown f r (showFigures f r g)) as E'.
  rewrite E, classList_remove_app, classList_remove_idem,
    (remove_marker _ _ (net_class_marker _)), app_nil_r, <- E in E'.
  unfold showFigures in *. cbn [net_pl_classList] in E'.
  cbn [net_pl_classList]. f_equal. exact E'.
Qed.

(** X7.  The handler is idempotent: run again on the page it has produced, with
    the inputs untouched, it takes the same exit and leaves the page as it
    is. *)
Theorem calculateProfitLoss_idempotent (pg : Page) :
  calculateProfitLoss (snd (calculateProfitLoss pg)) = calculateProfitLoss pg.
Proof.
  destruct (invalid (mirrored (form pg))) eqn:Hv.
  - rewrite (invalid_refused pg Hv). cbn [snd].
    rewrite invalid_refused by exact Hv.
    destruct pg as [f p g]. reflexivity.
  - rewrite (valid_shown pg Hv). cbn [snd].
    rewrite valid_shown by exact Hv.
    unfold shown. cbn [form panels figures errorMsg_textContent].
    now rewrite mirrored_idem, showFigures_idem.
Qed.

(** ** What a refusal leaves on the page *)

(** X8.  The handler never hides the results table: the table is hidden after a
    run only if it was hidden before and the input was refused. *)
Theorem results_table_never_hidden (pg : Page) :
  resultsTableContainer_hidden (panels (snd (calculateProfitLoss pg))) = true ->
  resultsTableContainer_hidden (panels pg) = true
  /\ fst (calculateProfitLoss pg) = ExitInvalid.
Proof.
  destruct (invalid (mirrored (form pg))) eqn:Hv.
  - rewrite (invalid_refused pg Hv). cbn. auto.
  - rewrite (valid_shown pg Hv). cbn. discriminate.
Qed.

(** X9.  After a result has been shown, an edit of the form that is refused
    leaves the table visible with the rows and the figures of the previous
    result, while the header, the summary and the break-even section are
    hidden and the message is shown. *)
Theorem stale_rows_after_refusal (pg : Page) (f' : Form) :
  fst (calculateProfitLoss pg) = ExitShown ->
  fst (calculateProfitLoss (with_form (snd (calculateProfitLoss pg)) f'))
  = ExitInvalid ->
  let pg1 := snd (calculateProfitLoss pg) in
  let pg2 := snd (calculateProfitLoss (with_form pg1 f')) in
  figures pg2 = figures pg1
  /\ resultsTableContainer_hidden (panels pg2) = false
  /\ resultsHeader_hidden (panels pg2) = true
  /\ finalPL_hidden (panels pg2) = true
  /\ loadedRateSection_hidden (panels pg2) = true
  /\ errorMsg_hidden (panels pg2) = false
  /\ errorMsg_textContent (panels pg2) = Str msgInvalid.
Proof.
  intros H1 H2 pg1 pg2. subst pg2 pg1.
  destruct (invalid (mirrored (form pg))) eqn:Hv;
    [rewrite (invalid_refused pg Hv) in H1; discriminate|].
  rewrite (valid_shown pg Hv) in *. cbn [snd] in *.
  set (pg1 := with_form _ f') in *.
  destruct (invalid (mirrored (form pg1))) eqn:Hv';
    [|rewrite (valid_shown pg1 Hv') in H2; discriminate].
  rewrite (invalid_refused pg1 Hv'). cbn. repeat split.
Qed.

Lemma results_table_never_hidden_witness :
  resultsTableContainer_hidden (panels (blank form_zero_quantity)) = true
  /\ fst (calculateProfitLoss (blank form_zero_quantity)) = ExitInvalid.
Proof.
  apply (results_table_never_hidden (blank form_zero_quantity)). reflexivity.
Defined.

Lemma stale_rows_after_refusal_witness :
  figures (snd (calculateProfitLoss
                  (with_form (snd (calculateProfitLoss (blank form_intraday_50)))
                             form_zero_quantity)))
  = figures (snd (calculateProfitLoss (blank form_intraday_50))).
Proof.
  apply (stale_rows_after_refusal (blank form_intraday_50) form_zero_quantity);
    reflexivity.
Defined.

(** ** Segments and actions as strings *)

(** X10.  A segment whose upper case, as toUpperCase gives it (a dotless i
    counting as I), is neither "F&O" nor "ROLLING T1", the empty string
    included, is charged exactly as INTRADAY. *)
Theorem other_segments_charged_as_intraday
  (qty price : number) (action segment : string) :
  isFO segment = false -> isDelivery segment = false ->
  calculateTradeCharges qty price action segment
  = calculateTradeCharges qty price action "INTRADAY".
Proof.
  unfold isFO, isDelivery. intros HF HD.
  unfold calculateTradeCharges, tradeLocals.
  cbn [l_tradeValue l_stt l_sebiExchangeCharges l_stampDuty l_totalBrokerage
       l_totalCharges].
  rewrite HF, HD.
  change (toUpperCase "INTRADAY" === "ROLLING T1")%js with false.
  change (toUpperCase "INTRADAY" === "F&O")%js with false.
  reflexivity.
Qed.

Lemma other_segments_charged_as_intraday_witness :
  calculateTradeCharges (lit 100) (lit 1000) "BUY" "delivery"
  = calculateTradeCharges (lit 100) (lit 1000) "BUY" "INTRADAY".
Proof.
  apply (other_segments_charged_as_intraday (lit 100) (lit 1000) "BUY" "delivery");
    reflexivity.
Defined.

(** X11.  The charges do not depend on the case of the ASCII letters of the
    action and of the segment. *)
Theorem charges_ignore_case (qty price : number) (action segment : string) :
  calculateTradeCharges qty price (toUpperCase action) (toUpperCase segment)
  = calculateTradeCharges qty price action segment.
Proof.
  unfold calculateTradeCharges, tradeLocals.
  now rewrite !toUpperCase_idem.
Qed.

(** X12.  An action whose upper case, as toUpperCase gives it (a long s
    counting as S), is neither BUY nor SELL pays no stamp duty, and STT only
    in the delivery segment. *)
Theorem other_actions (qty price : number) (action segment : string) :
  isBUY action = false -> isSELL action = false ->
  let l := tradeLocals qty price action segment in
  l_stampDuty l = lit 0
  /\ l_stt l = (if isDelivery segment then (qty * price * lit 0.001)%js else lit 0).
Proof.
  intros HB HS. cbv zeta. unfold isBUY, isSELL, isDelivery in *.
  unfold tradeLocals. cbn [l_stampDuty l_stt].
  rewrite HB, HS, !andb_false_r.
  split; destruct (toUpperCase segment === "ROLLING T1")%js; reflexivity.
Qed.

Lemma other_actions_witness :
  l_stampDuty (tradeLocals (lit 100) (lit 1000) "HOLD" "ROLLING T1") = lit 0.
Proof.
  apply (other_actions (lit 100) (lit 1000) "HOLD" "ROLLING T1"); reflexivity.
Defined.

(** ** Inputs that calculateTradeCharges does not check *)

Lemma mul_zero_l c : posfin c = true -> (lit 0 * c)%js = lit 0.
Proof. destruct c as [| | |[] m e]; try discriminate; reflexivity. Qed.

(** X13.  Called with the quantity 0 and a positive finite price, the function
    fails nowhere: every charge and the total are 0. *)
Theorem zero_quantity_charges (price : number) (action segment : string) :
  posfin price = true ->
  let l := tradeLocals (lit 0) price action segment in
  l_tradeValue l = lit 0 /\ l_totalBrokerage l = lit 0 /\ l_stt l = lit 0
  /\ l_sebiExchangeCharges l = lit 0 /\ l_stampDuty l = lit 0
  /\ l_totalCharges l = lit 0
  /\ totalCharges (calculateTradeCharges (lit 0) price action segment) = lit 0.
Proof.
  intros Hp l. subst l.
  unfold calculateTradeCharges, tradeLocals.
  cbn [l_tradeValue l_stt l_sebiExchangeCharges l_stampDuty l_totalBrokerage
       l_totalCharges totalCharges].
  rewrite (mul_zero_l price Hp).
  repeat split;
    repeat match goal with |- context [if ?b then _ else _] => destruct b end;
    reflexivity.
Qed.

Lemma zero_quantity_charges_witness :
  l_totalCharges (tradeLocals (lit 0) (lit 1000) "BUY" "ROLLING T1") = lit 0.
Proof.
  apply (zero_quantity_charges (lit 1000) "BUY" "ROLLING T1"). reflexivity.
Defined.

Lemma mul_nan_l y : (S754_nan * y)%js = S754_nan.
Proof. reflexivity. Qed.

Lemma mul_nan_r x : (x * S754_nan)%js = S754_nan.
Proof. now destruct x. Qed.

Lemma add_nan_r x : (x + S754_nan)%js = S754_nan.
Proof. now destruct x. Qed.

Lemma add_nan_l y : (S754_nan + y)%js = S754_nan.
Proof. reflexivity. Qed.

(** A NaN in the trade value reaches the total, whatever the branches. *)
Lemma totalCharges_nan (qty price : number) (action segment : string) :
  (qty * price)%js = S754_nan ->
  l_totalCharges (tradeLocals qty price action segment) = S754_nan.
Proof.
  intros H. unfold tradeLocals. cbn [l_totalCharges]. rewrite H.
  rewrite !mul_nan_l.
  replace (if (toUpperCase segment === "ROLLING T1")%js
           then S754_nan else S754_nan) with S754_nan
    by (now destruct (_ === _)%js).
  now rewrite add_nan_r.
Qed.

(** X14.  A sell price that is NaN is not refused (line 132 tests isNaN on the
    buy side only): the result exit is taken and the gross P&L, the total
    charges, the net P&L and the break-even price are all shown as N/A, the
    net P&L being marked "zero". *)
Theorem nan_sell_price_shown_as_na (pg : Page) :
  (buyQty (form pg) > lit 0)%js = true -> (buyPrice (form pg) > lit 0)%js = true ->
  isNaN (sellPrice (form pg)) = true ->
  fst (calculateProfitLoss pg) = ExitShown
  /\ gross_pl (figures (snd (calculateProfitLoss pg))) = Str "N/A"
  /\ total_charges_pl (figures (snd (calculateProfitLoss pg))) = Str "N/A"
  /\ net_pl (figures (snd (calculateProfitLoss pg))) = Str "N/A"
  /\ net_pl_classList (figures (snd (calculateProfitLoss pg)))
     = (classList_remove ["profit"; "loss"; "zero"]
          (net_pl_classList (figures pg)) ++ ["zero"])%list
  /\ loaded_rate (figures (snd (calculateProfitLoss pg))) = Str "N/A".
Proof.
  intros Hq Hp Hn.
  assert (Es : sellPrice (form pg) = S754_nan)
    by (destruct (sellPrice (form pg)); try discriminate; reflexivity).
  assert (Hv : invalid (mirrored (form pg)) = false).
  { unfold invalid, mirrored, mkForm; cbn [buyQty buyPrice sellQty sellPrice].
    rewrite Es, !gt_zero_not_le, !gt_zero_not_nan by assumption. reflexivity. }
  rewrite (valid_shown pg Hv). cbn [fst snd shown figures].
  set (f := mirrored (form pg)).
  assert (Esf : sellPrice f = S754_nan) by exact Es.
  assert (Etot : pl_totalCharges (pnlLocals f) = S754_nan).
  { unfold pnlLocals, calculateTradeCharges.
    cbn [pl_totalCharges _originalTotalCharges].
    rewrite (totalCharges_nan (sellQty f) (sellPrice f) "SELL" (sellSegment f))
      by (rewrite Esf; apply mul_nan_r).
    apply add_nan_r. }
  assert (Egross : grossProfit (pnlLocals f) = S754_nan).
  { unfold pnlLocals. cbn [grossProfit]. rewrite Esf, mul_nan_r. reflexivity. }
  assert (Enet : netProfitLoss (pnlLocals f) = S754_nan).
  { change (netProfitLoss (pnlLocals f))
      with (grossProfit (pnlLocals f) - pl_totalCharges (pnlLocals f))%js.
    now rewrite Egross. }
  assert (Ebe : sellPriceRequiredToBreakEven (pnlLocals f) = S754_nan).
  { change (sellPriceRequiredToBreakEven (pnlLocals f))
      with ((totalBuyTradeValue (pnlLocals f) + pl_totalCharges (pnlLocals f))
            / (if (buyQty f > lit 0)%js then buyQty f else lit 1))%js.
    now rewrite Etot, add_nan_r. }
  rewrite net_pl_classList_shown. unfold showFigures.
  cbn [gross_pl total_charges_pl loaded_rate net_pl].
  rewrite Egross, Etot, Enet, Ebe.
  repeat split.
Qed.

Lemma nan_sell_price_shown_as_na_witness :
  gross_pl (figures (snd (calculateProfitLoss (blank form_nan_sell_price))))
  = Str "N/A".
Proof.
  apply (nan_sell_price_shown_as_na (blank form_nan_sell_price)); reflexivity.
Defined.

(** ** The total as a rate *)

Lemma close_eq eps x t t' : (t == t')%Q -> close eps x t -> close eps x t'.
Proof. unfold close. now intros ->. Qed.

Lemma zero_or_normal_weaken hi hi' x :
  zero_or_normal hi x -> hi <= hi' -> zero_or_normal hi' x.
Proof. intros [H|[N E]] L; [now left|right; split; [exact N|lia]]. Qed.

Lemma inrange_zero_or_normal lo hi x : inrange lo hi x -> zero_or_normal hi x.
Proof. intros (N & E). right. split; [exact N|lia]. Qed.

(** The sum of two charges, each 0 or normal and each within [e] of its
    exact value, is within [e'] of the exact sum. *)
Lemma add_close e e' hi x y tx ty :
  zero_or_normal hi x -> zero_or_normal hi y -> hi <= 1021 ->
  close e x tx -> close e y ty -> (0 <= tx)%Q -> (0 <= ty)%Q ->
  (e + u + e * u <= e')%Q -> (e <= e')%Q ->
  close e' (x + y)%js (tx + ty) /\ zero_or_normal (hi + 2) (x + y)%js.
Proof.
  intros Zx Zy Hhi Cx Cy Px Py He He'.
  assert (M1 : (e * tx <= e' * tx)%Q) by (apply Qmult_le_compat_r; assumption).
  assert (M2 : (e * ty <= e' * ty)%Q) by (apply Qmult_le_compat_r; assumption).
  assert (M3 : ((e + u + e * u) * tx <= e' * tx)%Q)
    by (apply Qmult_le_compat_r; assumption).
  assert (M4 : ((e + u + e * u) * ty <= e' * ty)%Q)
    by (apply Qmult_le_compat_r; assumption).
  unfold close in *.
  apply Qabs_diff_Qle_condition in Cx, Cy.
  destruct Cx as [Cx1 Cx2], Cy as [Cy1 Cy2].
  rewrite u_value in *.
  destruct Zx as [->|[Nx Ex]], Zy as [->|[Ny Ey]].
  - split; [|now left].
    change (lit 0 + lit 0)%js with (lit 0).
    change (SF2Q (lit 0)) with 0%Q in *.
    apply Qabs_diff_Qle_condition. split; lra.
  - rewrite add_zero_l by exact Ny.
    split; [|right; split; [exact Ny|lia]].
    change (SF2Q (lit 0)) with 0%Q in *.
    apply Qabs_diff_Qle_condition. split; lra.
  - rewrite add_zero_r by exact Nx.
    split; [|right; split; [exact Nx|lia]].
    change (SF2Q (lit 0)) with 0%Q in *.
    apply Qabs_diff_Qle_condition. split; lra.
  - destruct (add_normal x y Nx Ny ltac:(lia)) as (N & E & C).
    fold (add x y) in N, E, C.
    split; [|right; split; [exact N|lia]].
    apply Qabs_diff_Qle_condition in C. destruct C as [C1 C2].
    rewrite u_value in *.
    apply Qabs_diff_Qle_condition. split; lra.
Qed.

Ltac qle := apply Qle_bool_iff; vm_compute; reflexivity.

Ltac eval_exponents_in H :=
  repeat match type of H with
    | context [exponent (lit ?f)] =>
        let v := eval vm_compute in (exponent (lit f)) in
        change (exponent (lit f)) with v in H
    end.

Lemma sebiExchange_close tv segment :
  normal_pos tv = true -> -1000 <= exponent tv ->
  close (1 # 2 ^ 50)
    (tv * lit 0.000001
     + (if isFO segment then tv * lit 0.0000183 else tv * lit 0.0000307))%js
    (rate_sebiExchange segment * SF2Q tv).
Proof.
  intros Ht He. pose proof (normal_pos_exponent tv Ht) as Hb.
  pose proof (SF2Q_pos tv Ht) as Pt.
  destruct (mul_rate tv (lit 0.000001) (1 # 1000000) Ht eq_refl
              ltac:(eval_exponents; lia)) as (N1 & E1 & C1).
  assert (H2 : exists R2,
             R2 = (if isFO segment then 183 # 10000000 else 307 # 10000000)%Q
             /\ (0 <= R2)%Q
             /\ inrange (exponent tv - 16) (exponent tv - 13)
                  (if isFO segment then tv * lit 0.0000183
                   else tv * lit 0.0000307)%js
             /\ close (1 # 2 ^ 51)
                  (if isFO segment then tv * lit 0.0000183
                   else tv * lit 0.0000307)%js (R2 * SF2Q tv)).
  { destruct (isFO segment); eexists; (split; [reflexivity|]);
      (split; [discriminate|]); (split; [mul_by_rate Ht|]);
      apply mul_rate; try exact Ht; try reflexivity; eval_exponents; lia. }
  destruct H2 as (R2 & ER & PR & I2 & C2).
  eval_exponents_in E1.
  assert (Z1 : zero_or_normal (exponent tv - 13) (tv * lit 0.000001)%js)
    by (right; split; [exact N1|lia]).
  assert (P1 : (0 <= (1 # 1000000) * SF2Q tv)%Q)
    by (apply Qmult_le_0_compat; [discriminate|now apply Qlt_le_weak]).
  assert (P2 : (0 <= R2 * SF2Q tv)%Q)
    by (apply Qmult_le_0_compat; [exact PR|now apply Qlt_le_weak]).
  assert (S1 : ((1 # 2 ^ 51) + u + (1 # 2 ^ 51) * u <= 1 # 2 ^ 50)%Q) by qle.
  assert (W1 : (1 # 2 ^ 51 <= 1 # 2 ^ 50)%Q) by qle.
  assert (Hhi : exponent tv - 13 <= 1021) by lia.
  destruct (add_close (1 # 2 ^ 51) (1 # 2 ^ 50) (exponent tv - 13) _ _ _ _
              Z1 (inrange_zero_or_normal _ _ _ I2) Hhi C1 C2 P1 P2 S1 W1)
    as [C _].
  eapply close_eq; [|exact C]. unfold rate_sebiExchange. rewrite <- ER. ring.
Qed.

Lemma brokerage_close_rate tv segment :
  normal_pos tv = true -> -1000 <= exponent tv ->
  close (1 # 2 ^ 50)
    ((if isDelivery segment then tv * RATE_BROKERAGE_DELIVERY
      else tv * lit 0.00007)
     + (if isDelivery segment then tv * RATE_BROKERAGE_DELIVERY
        else tv * lit 0.00007) * TAX_GST)%js
    (rate_brokerage segment * SF2Q tv).
Proof.
  intros Ht He. unfold rate_brokerage, rate_brokerageBase.
  destruct (isDelivery segment);
    apply brokerage_close; try assumption; try reflexivity;
    eval_exponents; lia.
Qed.

Lemma rate_sebiExchange_pos segment : (0 <= rate_sebiExchange segment)%Q.
Proof. unfold rate_sebiExchange. destruct (isFO segment); discriminate. Qed.

Lemma totalCharges_close (qty price : number) (action segment : string) :
  normal_pos (qty * price)%js = true -> -1000 <= exponent (qty * price)%js ->
  close (1 # 2 ^ 47) (l_totalCharges (tradeLocals qty price action segment))
    (rate_total action segment * SF2Q (qty * price)%js).
Proof.
  intros Ht He. pose proof (normal_pos_exponent _ Ht) as Hb.
  pose proof (SF2Q_pos _ Ht) as Pt.
  unfold tradeLocals. cbn [l_totalCharges].
  fold (isDelivery segment) (isFO segment) (isSELL action) (isBUY action).
  set (tv := (qty * price)%js) in *.
  assert (PT : (0 <= SF2Q tv)%Q) by now apply Qlt_le_weak.
  destruct (rate_nonneg action segment) as (R1 & R2 & R3).
  pose proof (rate_sebiExchange_pos segment) as R4.
  pose proof (rate_stt_close tv action segment Ht He) as Cstt.
  pose proof (stt_zero_or_inrange tv action segment Ht He _ eq_refl) as Zstt.
  pose proof (rate_stampDuty_close tv action segment Ht He) as Csd.
  pose proof (stampDuty_zero_or_inrange tv action segment Ht He _ eq_refl) as Zsd.
  pose proof (sebiExchange_close tv segment Ht He) as Cse.
  pose proof (sebiExchange_inrange tv segment Ht He) as Ise.
  pose proof (brokerage_close_rate tv segment Ht He) as Cbr.
  pose proof (brokerage_inrange tv segment Ht He) as Ibr.
  set (brok := (_ + _ * TAX_GST)%js) in *.
  set (sebi := (tv * lit 0.000001 + _)%js) in *.
  set (stt' := if (isFO segment && isSELL action)%bool then _ else _) in *.
  set (sd' := if (isFO segment && isBUY action)%bool then _ else _) in *.
  assert (Zstt' : zero_or_normal (exponent tv - 8) stt')
    by (destruct Zstt as [H|H]; [now left|now apply (inrange_zero_or_normal _ _ _ H)]).
  assert (Zsd' : zero_or_normal (exponent tv - 6) sd').
  { destruct Zsd as [H|H]; [now left|].
    eapply zero_or_normal_weaken; [apply (inrange_zero_or_normal _ _ _ H)|lia]. }
  assert (Zse : zero_or_normal (exponent tv - 8) sebi).
  { eapply zero_or_normal_weaken; [apply (inrange_zero_or_normal _ _ _ Ise)|lia]. }
  assert (Zbr : zero_or_normal (exponent tv - 4) brok).
  { eapply zero_or_normal_weaken; [apply (inrange_zero_or_normal _ _ _ Ibr)|lia]. }
  assert (P1 : (0 <= rate_stt action segment * SF2Q tv)%Q)
    by (now apply Qmult_le_0_compat).
  assert (P2 : (0 <= rate_sebiExchange segment * SF2Q tv)%Q)
    by (now apply Qmult_le_0_compat).
  assert (P3 : (0 <= rate_stampDuty action segment * SF2Q tv)%Q)
    by (now apply Qmult_le_0_compat).
  assert (P4 : (0 <= rate_brokerage segment * SF2Q tv)%Q)
    by (now apply Qmult_le_0_compat).
  assert (W51 : (1 # 2 ^ 51 <= 1 # 2 ^ 50)%Q) by qle.
  assert (W49 : (1 # 2 ^ 51 <= 1 # 2 ^ 49)%Q) by qle.
  assert (W48 : (1 # 2 ^ 50 <= 1 # 2 ^ 48)%Q) by qle.
  assert (W1 : (1 # 2 ^ 50 <= 1 # 2 ^ 49)%Q) by qle.
  assert (W2 : (1 # 2 ^ 49 <= 1 # 2 ^ 48)%Q) by qle.
  assert (W3 : (1 # 2 ^ 48 <= 1 # 2 ^ 47)%Q) by qle.
  assert (S1 : ((1 # 2 ^ 50) + u + (1 # 2 ^ 50) * u <= 1 # 2 ^ 49)%Q) by qle.
  assert (S2 : ((1 # 2 ^ 49) + u + (1 # 2 ^ 49) * u <= 1 # 2 ^ 48)%Q) by qle.
  assert (S3 : ((1 # 2 ^ 48) + u + (1 # 2 ^ 48) * u <= 1 # 2 ^ 47)%Q) by qle.
  assert (H1 : exponent tv - 8 <= 1021) by lia.
  assert (H2 : exponent tv - 6 <= 1021) by lia.
  assert (H3 : exponent tv - 4 <= 1021) by lia.
  (* stt + sebiExchangeCharges *)
  pose proof (close_weaken _ _ _ _ W51 P1 Cstt) as Cstt'.
  destruct (add_close _ _ _ _ _ _ _ Zstt' Zse H1 Cstt' Cse P1 P2 S1 W1)
    as (C1 & Z1).
  replace (exponent tv - 8 + 2) with (exponent tv - 6) in Z1 by lia.
  (* ... + stampDuty *)
  pose proof (close_weaken _ _ _ _ W49 P3 Csd) as Csd'.
  assert (P12 : (0 <= rate_stt action segment * SF2Q tv
                      + rate_sebiExchange segment * SF2Q tv)%Q) by lra.
  destruct (add_close _ _ _ _ _ _ _ Z1 Zsd' H2 C1 Csd' P12 P3 S2 W2)
    as (C2 & Z2).
  replace (exponent tv - 6 + 2) with (exponent tv - 4) in Z2 by lia.
  (* ... + totalBrokerage *)
  pose proof (close_weaken _ _ _ _ W48 P4 Cbr) as Cbr'.
  assert (P123 : (0 <= rate_stt action segment * SF2Q tv
                       + rate_sebiExchange segment * SF2Q tv
                       + rate_stampDuty action segment * SF2Q tv)%Q) by lra.
  destruct (add_close _ _ _ _ _ _ _ Z2 Zbr H3 C2 Cbr' P123 P4 S3 W3)
    as (C3 & _).
  eapply close_eq; [|exact C3]. unfold rate_total. ring.
Qed.

(** X15.  The total charges of a leg are the sum of the four decimal rates of its
    action and segment times the trade value, up to a relative rounding
    error of 2^-47; the SEBI and exchange fees are theirs up to 2^-50. *)
Theorem total_is_rate_times_value
  (qty price : number) (action segment : string) :
  normal_pos (qty * price)%js = true -> -1000 <= exponent (qty * price)%js ->
  let l := tradeLocals qty price action segment in
  close (1 # 2 ^ 47) (l_totalCharges l)
    (rate_total action segment * SF2Q (qty * price)%js)
  /\ close (1 # 2 ^ 50) (l_sebiExchangeCharges l)
       (rate_sebiExchange segment * SF2Q (qty * price)%js).
Proof.
  intros Ht He l. split; [now apply totalCharges_close|].
  apply (sebiExchange_close (qty * price)%js segment Ht He).
Qed.


Lemma total_is_rate_times_value_witness :
  close (1 # 2 ^ 47)
    (l_totalCharges (tradeLocals (lit 100) (lit 1000) "BUY" "ROLLING T1"))
    (rate_total "BUY" "ROLLING T1" * SF2Q (lit 100 * lit 1000)%js).
Proof.
  apply (total_is_rate_times_value (lit 100) (lit 1000) "BUY" "ROLLING T1");
    [reflexivity|vm_compute; discriminate].
Defined.

Lemma rate_total_bounds action segment :
  ((1 # 10000) <= rate_total action segment <= (2014 # 1000000))%Q.
Proof.
  unfold rate_total, rate_stt, rate_sebiExchange, rate_stampDuty,
    rate_brokerage, rate_brokerageBase.
  destruct (isFO segment), (isDelivery segment), (isSELL action), (isBUY action);
    cbn [andb]; split; qle.
Qed.

(** X16.  The total charges of a leg lie between 0.0099% and 0.2015% of its trade
    value, whatever the action and the segment. *)
Theorem total_charges_share (qty price : number) (action segment : string) :
  normal_pos (qty * price)%js = true -> -1000 <= exponent (qty * price)%js ->
  let l := tradeLocals qty price action segment in
  ((99 # 1000000) * SF2Q (qty * price)%js <= SF2Q (l_totalCharges l)
   <= (2015 # 1000000) * SF2Q (qty * price)%js)%Q.
Proof.
  intros Ht He l.
  pose proof (totalCharges_close qty price action segment Ht He) as C.
  fold l in C. pose proof (SF2Q_pos _ Ht) as Pt.
  destruct (rate_total_bounds action segment) as [B1 B2].
  assert (M1 : ((1 # 10000) * SF2Q (qty * price)%js
                <= rate_total action segment * SF2Q (qty * price)%js)%Q)
    by (apply Qmult_le_compat_r; [exact B1|now apply Qlt_le_weak]).
  assert (M2 : (rate_total action segment * SF2Q (qty * price)%js
                <= (2014 # 1000000) * SF2Q (qty * price)%js)%Q)
    by (apply Qmult_le_compat_r; [exact B2|now apply Qlt_le_weak]).
  unfold close in C. apply Qabs_diff_Qle_condition in C.
  change (1 # 2 ^ 47)%Q with (1 # 140737488355328)%Q in C.
  destruct C as [C1 C2]. split; lra.
Qed.

Lemma total_charges_share_witness :
  (SF2Q (l_totalCharges (tradeLocals (lit 100) (lit 1000) "BUY" "ROLLING T1"))
   <= (2015 # 1000000) * SF2Q (lit 100 * lit 1000)%js)%Q.
Proof.
  apply (total_charges_share (lit 100) (lit 1000) "BUY" "ROLLING T1");
    [reflexivity|vm_compute; discriminate].
Defined.

(** ** The break-even price *)

Lemma break_even_of_valid (pg : Page) :
  invalid (mirrored (form pg)) = false ->
  let f := form pg in
  let r := pnlLocals (mirrored f) in
  (buyQty f > lit 0)%js = true
  /\ sellPriceRequiredToBreakEven r
     = ((totalBuyTradeValue r + pl_totalCharges r) / buyQty f)%js
  /\ loaded_rate (figures (snd (calculateProfitLoss pg)))
     = (if isFinite (sellPriceRequiredToBreakEven r)
        then Fixed (sellPriceRequiredToBreakEven r) 4 else Str "N/A").
Proof.
  intros Hv f r.
  destruct (valid_inputs_positive _ Hv) as (Hq & _ & _). fold f in Hq.
  split; [exact Hq|].
  assert (Ebe : sellPriceRequiredToBreakEven r
                = ((totalBuyTradeValue r + pl_totalCharges r) / buyQty f)%js).
  { subst r. unfold pnlLocals.
    cbn [sellPriceRequiredToBreakEven totalBuyTradeValue pl_totalCharges
         mirrored mkForm buyQty].
    now rewrite Hq. }
  split; [exact Ebe|].
  rewrite (valid_shown pg Hv). cbn [snd shown figures].
  unfold showFigures. cbn [loaded_rate]. fold f r.
  change (buyQty (mirrored f)) with (buyQty f).
  rewrite (gt_zero_not_le _ Hq), orb_false_r.
  now destruct (isFinite (sellPriceRequiredToBreakEven r)).
Qed.

(** X17.  Whenever a result is shown, the buy quantity is positive: the divisor of
    the break-even price is the buy quantity, never the fallback 1, and the
    break-even price is printed unless it is not finite; the test
    [buyQty <= 0] of line 187 never decides. *)
Theorem break_even_display (pg : Page) :
  fst (calculateProfitLoss pg) = ExitShown ->
  let f := form pg in
  let r := pnlLocals (mirrored f) in
  (buyQty f > lit 0)%js = true
  /\ sellPriceRequiredToBreakEven r
     = ((totalBuyTradeValue r + pl_totalCharges r) / buyQty f)%js
  /\ loaded_rate (figures (snd (calculateProfitLoss pg)))
     = (if isFinite (sellPriceRequiredToBreakEven r)
        then Fixed (sellPriceRequiredToBreakEven r) 4 else Str "N/A").
Proof.
  intros H. apply break_even_of_valid.
  destruct (invalid (mirrored (form pg))) eqn:Hv; [|reflexivity].
  rewrite (invalid_refused pg Hv) in H. discriminate.
Qed.

Lemma break_even_display_witness :
  loaded_rate (figures (snd (calculateProfitLoss (blank form_intraday_50))))
  = Fixed (sellPriceRequiredToBreakEven (pnlLocals (mirrored form_intraday_50))) 4.
Proof.
  destruct (break_even_display (blank form_intraday_50) eq_refl) as (_ & _ & H).
  rewrite H. reflexivity.
Defined.

Lemma normal_gt_zero x : normal_pos x = true -> (x > lit 0)%js = true.
Proof. destruct x as [| | |[] m e]; try discriminate; reflexivity. Qed.

(** X18.  For a quantity and prices that are normal doubles between 2^-250 and
    2^251, the result is shown, the break-even price is a finite double
    that is printed (never N/A), and it is strictly above the buy price:
    the charges are never lost in rounding. *)
Theorem break_even_above_buy_price (pg : Page) :
  inrange (-250) 250 (buyQty (form pg)) ->
  inrange (-250) 250 (buyPrice (form pg)) ->
  inrange (-250) 250 (sellPrice (form pg)) ->
  let r := pnlLocals (mirrored (form pg)) in
  fst (calculateProfitLoss pg) = ExitShown
  /\ (buyPrice (form pg) < sellPriceRequiredToBreakEven r)%js = true
  /\ loaded_rate (figures (snd (calculateProfitLoss pg)))
     = Fixed (sellPriceRequiredToBreakEven r) 4.
Proof.
  intros (Nq & Eq) (Nb & Eb) (Ns & Es) r.
  set (f := form pg) in *.
  assert (Hshown : calculateProfitLoss pg = (ExitShown, shown pg r))
    by (apply positive_inputs_shown; now apply normal_gt_zero).
  assert (Hexit : fst (calculateProfitLoss pg) = ExitShown) by now rewrite Hshown.
  assert (Hv : invalid (mirrored (form pg)) = false).
  { destruct (invalid (mirrored (form pg))) eqn:Hv; [|reflexivity].
    rewrite (invalid_refused pg Hv) in Hshown. discriminate. }
  destruct (break_even_of_valid pg Hv) as (Hq & Ebe & Hrate).
  fold f r in Hq, Ebe, Hrate.
  (* sizes *)
  destruct (mul_normal (buyQty f) (buyPrice f) Nq Nb ltac:(lia)) as (NtB & EtB & CtB).
  destruct (mul_normal (buyQty f) (sellPrice f) Nq Ns ltac:(lia)) as (NtS & EtS & _).
  fold (mul (buyQty f) (buyPrice f)) in NtB, EtB, CtB.
  fold (mul (buyQty f) (sellPrice f)) in NtS, EtS.
  pose proof (totalCharges_inrange (buyQty f) (buyPrice f) "BUY" (buySegment f)
                NtB ltac:(lia)) as HB.
  pose proof (totalCharges_inrange (buyQty f) (sellPrice f) "SELL" (buySegment f)
                NtS ltac:(lia)) as HS.
  pose proof (totalCharges_close (buyQty f) (buyPrice f) "BUY" (buySegment f)
                NtB ltac:(lia)) as CB.
  destruct (rate_total_bounds "BUY" (buySegment f)) as [RB _].
  cbv zeta in HB, HS.
  set (tvB := (buyQty f * buyPrice f)%js) in *.
  set (totB := l_totalCharges (tradeLocals (buyQty f) (buyPrice f) "BUY" (buySegment f))) in *.
  set (totS := l_totalCharges (tradeLocals (buyQty f) (sellPrice f) "SELL" (buySegment f))) in *.
  destruct HB as (NB & EB), HS as (NS & ES).
  destruct (add_normal totB totS NB NS ltac:(lia)) as (NT & ET & CT).
  fold (add totB totS) in NT, ET, CT.
  destruct (add_normal tvB (totB + totS)%js NtB NT ltac:(lia)) as (NX & EX & CX).
  fold (add tvB (totB + totS)%js) in NX, EX, CX.
  set (X := (tvB + (totB + totS))%js) in *.
  assert (EX' : X = (totalBuyTradeValue r + pl_totalCharges r)%js) by reflexivity.
  rewrite <- EX' in Ebe.
  destruct (div_normal X (buyQty f) NX Nq ltac:(lia)) as (Nbe & _ & Cbe).
  fold (div X (buyQty f)) in Nbe, Cbe. rewrite <- Ebe in Nbe, Cbe.
  set (be := sellPriceRequiredToBreakEven r) in *.
  split; [exact Hexit|].
  split.
  - apply SFltb_of_Qlt; [exact Nb|exact Nbe|].
    pose proof (SF2Q_pos _ Nq) as Pq. pose proof (SF2Q_pos _ Nb) as Pb.
    pose proof (SF2Q_pos _ NS) as PS. pose proof (SF2Q_pos _ NtB) as PtB.
    assert (ShB : ((99 # 1000000) * SF2Q tvB <= SF2Q totB)%Q).
    { assert (M1 : ((1 # 10000) * SF2Q tvB
                    <= rate_total "BUY" (buySegment f) * SF2Q tvB)%Q)
        by (apply Qmult_le_compat_r; [exact RB|now apply Qlt_le_weak]).
      unfold close in CB. apply Qabs_diff_Qle_condition in CB.
      change (1 # 2 ^ 47)%Q with (1 # 140737488355328)%Q in CB.
      destruct CB as [C1 C2]. lra. }
    (* be * q against X *)
    assert (HB : (Qabs (SF2Q be * SF2Q (buyQty f) - SF2Q X) <= u * SF2Q X)%Q).
    { assert (E : (SF2Q be * SF2Q (buyQty f) - SF2Q X
                   == (SF2Q be - SF2Q X / SF2Q (buyQty f)) * SF2Q (buyQty f))%Q).
      { field. intros Z0. rewrite Z0 in Pq. discriminate. }
      assert (E' : (u * SF2Q X
                    == u * (SF2Q X / SF2Q (buyQty f)) * SF2Q (buyQty f))%Q).
      { field. intros Z0. rewrite Z0 in Pq. discriminate. }
      rewrite E, E', Qabs_Qmult, (Qabs_pos (SF2Q (buyQty f)))
        by (now apply Qlt_le_weak).
      apply Qmult_le_compat_r; [exact Cbe|now apply Qlt_le_weak]. }
    apply Qmult_lt_r with (z := SF2Q (buyQty f)); [exact Pq|].
    apply Qabs_diff_Qle_condition in HB, CtB, CT, CX.
    rewrite u_value in *.
    set (A := (SF2Q (buyQty f) * SF2Q (buyPrice f))%Q) in *.
    assert (PA : (0 < A)%Q) by (apply Qmult_lt_0_compat; assumption).
    setoid_replace (SF2Q (buyPrice f) * SF2Q (buyQty f))%Q with A
      by (unfold A; ring).
    destruct HB as [HB1 HB2], CtB as [Ct1 Ct2], CT as [CT1 CT2], CX as [CX1 CX2].
    lra.
  - rewrite Hrate.
    destruct be as [| | |[] m e]; try discriminate; reflexivity.
Qed.

Lemma break_even_above_buy_price_witness :
  (lit 200 < sellPriceRequiredToBreakEven (pnlLocals (mirrored form_intraday_50)))%js
  = true.
Proof.
  apply (break_even_above_buy_price (blank form_intraday_50));
    vm_compute; (split; [reflexivity|split; discriminate]).
Defined.

(** ** Selling at the buy price *)

Lemma sub_self x : isFinite x = true -> (x - x)%js = lit 0.
Proof.
  destruct x as [[]| | |s m e]; try discriminate; try reflexivity.
  intros _. unfold sub, SFsub. cbv zeta. now rewrite Z.sub_diag.
Qed.

Lemma zero_sub x : normal_pos x = true -> (lit 0 - x)%js = SFopp x.
Proof. destruct x as [| | |[] m e]; try discriminate; reflexivity. Qed.

Lemma opp_normal_negative x :
  normal_pos x = true ->
  (SFopp x > lit 0)%js = false /\ (SFopp x < lit 0)%js = true.
Proof. destruct x as [| | |[] m e]; try discriminate. split; reflexivity. Qed.

(** X19.  A sale at the buy price, for a quantity and a price that are normal
    doubles between 2^-250 and 2^251, is shown as a loss of exactly the
    total charges: the gross P&L is 0, the net P&L is minus the total
    charges with no rounding, it is marked "loss" and gets no "+". *)
Theorem sold_at_buy_price_is_loss (pg : Page) :
  inrange (-250) 250 (buyQty (form pg)) ->
  inrange (-250) 250 (buyPrice (form pg)) ->
  sellPrice (form pg) = buyPrice (form pg) ->
  let r := pnlLocals (mirrored (form pg)) in
  let pg' := snd (calculateProfitLoss pg) in
  fst (calculateProfitLoss pg) = ExitShown
  /\ grossProfit r = lit 0
  /\ normal_pos (pl_totalCharges r) = true
  /\ netProfitLoss r = SFopp (pl_totalCharges r)
  /\ net_pl_classList (figures pg')
     = (classList_remove ["profit"; "loss"; "zero"] (net_pl_classList (figures pg))
        ++ ["loss"])%list
  /\ net_pl (figures pg') = formatInteger (netProfitLoss r).
Proof.
  intros (Nq & Eq) (Nb & Eb) Hs r pg'.
  set (f := form pg) in *.
  assert (Hshown : calculateProfitLoss pg = (ExitShown, shown pg r)).
  { apply positive_inputs_shown; fold f; [| |rewrite Hs]; now apply normal_gt_zero. }
  destruct (mul_normal (buyQty f) (buyPrice f) Nq Nb ltac:(lia)) as (Nt & Et & _).
  fold (mul (buyQty f) (buyPrice f)) in Nt, Et.
  pose proof (totalCharges_inrange (buyQty f) (buyPrice f) "BUY" (buySegment f)
                Nt ltac:(lia)) as HB.
  pose proof (totalCharges_inrange (buyQty f) (buyPrice f) "SELL" (buySegment f)
                Nt ltac:(lia)) as HS.
  cbv zeta in HB, HS. destruct HB as (NB & EB), HS as (NS & ES).
  set (totB := l_totalCharges (tradeLocals (buyQty f) (buyPrice f) "BUY" (buySegment f))) in *.
  set (totS := l_totalCharges (tradeLocals (buyQty f) (buyPrice f) "SELL" (buySegment f))) in *.
  destruct (add_normal totB totS NB NS ltac:(lia)) as (NT & _ & _).
  fold (add totB totS) in NT.
  assert (ET : pl_totalCharges r = (totB + totS)%js).
  { subst r totB totS. unfold pnlLocals, calculateTradeCharges.
    cbn [pl_totalCharges _originalTotalCharges mirrored mkForm buyQty buyPrice
         buySegment sellQty sellPrice sellSegment].
    fold f. now rewrite Hs. }
  assert (EG : grossProfit r = lit 0).
  { subst r. unfold pnlLocals.
    cbn [grossProfit mirrored mkForm buyQty buyPrice sellQty sellPrice].
    fold f. rewrite Hs. apply sub_self.
    destruct (buyQty f * buyPrice f)%js as [| | |[] m e]; try discriminate;
      reflexivity. }
  assert (EN : netProfitLoss r = SFopp (pl_totalCharges r)).
  { change (netProfitLoss r) with (grossProfit r - pl_totalCharges r)%js.
    rewrite EG. apply zero_sub. now rewrite ET. }
  rewrite <- ET in NT.
  destruct (opp_normal_negative _ NT) as [G L]. rewrite <- EN in G, L.
  split; [now rewrite Hshown|].
  split; [exact EG|]. split; [exact NT|]. split; [exact EN|].
  subst pg'. rewrite Hshown. cbn [snd shown figures].
  rewrite net_pl_classList_shown. unfold net_class, showFigures.
  cbn [net_pl]. rewrite G, L. split; reflexivity.
Qed.

Lemma sold_at_buy_price_is_loss_witness :
  netProfitLoss (pnlLocals (mirrored
    (mkForm (lit 50) (lit 200) "INTRADAY" (lit 50) (lit 200) "INTRADAY")))
  = SFopp (pl_totalCharges (pnlLocals (mirrored
      (mkForm (lit 50) (lit 200) "INTRADAY" (lit 50) (lit 200) "INTRADAY")))).
Proof.
  apply (sold_at_buy_price_is_loss
           (blank (mkForm (lit 50) (lit 200) "INTRADAY" (lit 50) (lit 200) "INTRADAY")));
    [vm_compute; (split; [reflexivity|split; discriminate])
    |vm_compute; (split; [reflexivity|split; discriminate])
    |reflexivity].
Defined.
